(** * freedv_mixed_tx: mixed voice/data transmit demo of the FreeDV API

    A shallow embedding of [src/freedv_mixed_tx.c] and the properties its
    design document states about it.

    - [EthAr]    : [eth_ar_call2mac], callsign + SSID -> MAC address
    - [DataTx]   : [my_datatx], the data-channel callback (packet source)
    - [Float32]  : IEEE binary32 values and comparison (C [float])
    - [Driver]   : [samples_get_energy], the per-block body and [main]

    C integers are modelled as [Z] with wrap-around written out where the
    source can reach it; byte buffers are [list Z] updated in place with
    stdpp's list insert; C strings are [string]s read up to their first NUL.
    The types are those of an LP64 platform: [int] has 32 bits, [long] and
    [size_t] have 64. *)

From Stdlib Require Import ZArith List String Ascii Bool Lia.
From Stdlib Require Import Floats.SpecFloat.
From stdpp Require Import base list strings.

Local Open Scope Z_scope.

(** ** Machine integers and buffers shared by all modules *)

Definition uint8 (z : Z) : Z := z mod 2 ^ 8.
Definition uint64 (z : Z) : Z := z mod 2 ^ 64.

(** The [int] with the low 32 bits of [z]: what a conversion to [int]
    yields, and what two's-complement arithmetic leaves in an [int] that
    overflows.  (C leaves signed overflow undefined; the properties that
    depend on a counter say how far they reach.) *)
Definition int32 (z : Z) : Z := (z + 2 ^ 31) mod 2 ^ 32 - 2 ^ 31.

(** [memcpy (dst + off, src, n)] and [memset (dst + off, v, n)] on a buffer
    held as a list.  A write past the end of the list is dropped (the C
    program would write out of bounds there). *)
Definition memcpy (dst : list Z) (off : nat) (src : list Z) (n : nat) : list Z :=
  list_inserts off (take n src) dst.

Definition memset (dst : list Z) (off : nat) (v : Z) (n : nat) : list Z :=
  list_inserts off (replicate n v) dst.

(** The code of a character, as an unsigned byte. *)
Definition char_code (c : ascii) : Z := Z.of_N (N_of_ascii c).

(** [strlen]: number of characters before the first NUL.  The terminator of
    a [string] that holds no NUL is implied at its end. *)
Fixpoint strlen (s : string) : nat :=
  match s with
  | EmptyString => 0%nat
  | String c s' => if (char_code c =? 0) then 0%nat else S (strlen s')
  end.

(** [s[i]]; reading the implied terminator gives 0. *)
Definition char_at (s : string) (i : nat) : Z :=
  match String.get i s with
  | Some c => char_code c
  | None => 0
  end.

(** [toupper] in the "C" locale (the program never calls [setlocale]). *)
Definition toupper (c : Z) : Z :=
  if (97 <=? c) && (c <=? 122) then c - 32 else c.

(** ** Encoding a callsign and SSID into a MAC address *)

Module EthAr.

(** Lookup table for valid callsign characters: '0'-'9', 'A'-'Z', NUL. *)
Definition alnum2code : list Z :=
  [48; 49; 50; 51; 52; 53; 54; 55; 56; 57;
   65; 66; 67; 68; 69; 70; 71; 72; 73; 74;
   75; 76; 77; 78; 79; 80; 81; 82; 83; 84;
   85; 86; 87; 88; 89; 90; 0].

Definition sizeof_alnum2code : Z := 37.

(** The inner loop
    [for (j = 0; j < sizeof(alnum2code); j++) if (alnum2code[j] == c) break;]
    run on the remaining table [tbl] from index [j]; the result is the value
    of [j] after the loop. *)
Fixpoint table_scan (tbl : list Z) (c : Z) (j : Z) : Z :=
  match tbl with
  | [] => j
  | x :: tbl' => if x =? c then j else table_scan tbl' c (j + 1)
  end.

Definition symbol_index (c : Z) : Z := table_scan alnum2code c 0.

(** The character examined at position [i]. *)
Definition scanned_char (callsign : string) (i : nat) : Z :=
  if (strlen callsign <=? i)%nat then 0 else toupper (char_at callsign i).

(** The outer loop [for (i = 7; i >= 0; i--)], with [n = i + 1] iterations
    left and the accumulator [add] (a [uint64_t]).  [None] is the early
    [return -1]. *)
Fixpoint call2mac_scan (callsign : string) (n : nat) (add : Z) : option Z :=
  match n with
  | O => Some add
  | S i =>
      let j := symbol_index (scanned_char callsign i) in
      if j =? sizeof_alnum2code then None
      else call2mac_scan callsign i (uint64 (uint64 (add * 37) + j))
  end.

(** The integer accumulated by the whole loop. *)
Definition accumulate (callsign : string) : option Z :=
  call2mac_scan callsign 8 0.

(** [eth_ar_call2mac (mac, callsign, ssid, multicast)]: the returned [int]
    and the contents of [mac] afterwards. *)
Definition eth_ar_call2mac (mac : list Z) (callsign : string) (ssid : Z)
    (multicast : bool) : Z * list Z :=
  if (15 <? ssid) || (ssid <? 0) then (-1, mac)
  else
    match accumulate callsign with
    | None => (-1, mac)
    | Some add =>
        let mac := <[0%nat := uint8 (Z.lor (Z.lor (Z.lor
                       (Z.land (Z.shiftr add (40 - 6)) 0xc0)
                       (Z.shiftl ssid 2)) 0x02) (Z.b2z multicast))]> mac in
        let mac := <[1%nat := uint8 (Z.land (Z.shiftr add 32) 0xff)]> mac in
        let mac := <[2%nat := uint8 (Z.land (Z.shiftr add 24) 0xff)]> mac in
        let mac := <[3%nat := uint8 (Z.land (Z.shiftr add 16) 0xff)]> mac in
        let mac := <[4%nat := uint8 (Z.land (Z.shiftr add 8) 0xff)]> mac in
        let mac := <[5%nat := uint8 (Z.land add 0xff)]> mac in
        (0, mac)
    end.

(** *** Vocabulary of the design document *)

(** The digit of position [p]: the table index of the upper-cased character,
    or the pad digit 36 at and beyond the end of the identifier. *)
Definition digit_at (callsign : string) (p : nat) : Z :=
  if (strlen callsign <=? p)%nat then 36
  else symbol_index (toupper (char_at callsign p)).

(** [sum over p < n of d p * 37 ^ p]. *)
Fixpoint base37_value (d : nat -> Z) (n : nat) : Z :=
  match n with
  | O => 0
  | S p => base37_value d p + d p * 37 ^ Z.of_nat p
  end.

(** Membership in the 37-symbol alphabet. *)
Definition in_alphabet (c : Z) : bool := existsb (Z.eqb c) alnum2code.

(** The first [min (length, 8)] characters are in the alphabet once
    upper-cased. *)
Definition valid_callsign (callsign : string) : bool :=
  forallb (fun p => in_alphabet (toupper (char_at callsign p)))
          (seq 0 (Nat.min (strlen callsign) 8)).

(** A character of [[0-9A-Za-z]]. *)
Definition alnum (c : Z) : bool :=
  ((48 <=? c) && (c <=? 57)) || ((65 <=? c) && (c <=? 90))
  || ((97 <=? c) && (c <=? 122)).

(** The value of bytes read most-significant first. *)
Definition be_value (bs : list Z) : Z :=
  fold_left (fun acc b => acc * 256 + b) bs 0.

End EthAr.

(** ** Data channel callback: the packet source *)

Module DataTx.

(** [struct my_callback_state]. *)
Record my_callback_state := {
  calls : Z;
  mac : list Z
}.

(** The callback's view of memory: its function-local [static int data_type]
    and the [my_callback_state] it is handed.  Both counters are C [int]s:
    every value stored in them goes through [int32]. *)
Record state := {
  data_type : Z;
  cb : my_callback_state
}.

(** A freshly loaded program: [data_type] is zero-initialised. *)
Definition fresh (c : my_callback_state) : state :=
  {| data_type := 0; cb := c |}.

(** [for (i = 0; i < 64; i++) packet[i + 14] = i;] with [n] iterations left;
    returns the buffer and the final [i]. *)
Fixpoint fill_pattern (n : nat) (i : Z) (packet : list Z) : list Z * Z :=
  match n with
  | O => (packet, i)
  | S n' => fill_pattern n' (i + 1) (<[Z.to_nat (i + 14) := uint8 i]> packet)
  end.

(** [my_datatx (callback_state, packet, size)]: the state afterwards, the
    buffer afterwards and the value stored in [*size].  The size available
    in [packet] is never read: the function stores up to 78 bytes whatever
    the buffer holds, so the caller has to supply at least that many (on a
    shorter list the stores past its end are dropped, where the C program
    would write out of bounds). *)
Definition my_datatx (st : state) (packet : list Z) : state * list Z * Z :=
  let cbs := {| calls := int32 (calls (cb st) + 1); mac := mac (cb st) |} in
  let '(packet, size) :=
    if Z.rem (data_type st) 4 =? 1 then
      let packet := memset packet 0 0xff 6 in
      let packet := memcpy packet 6 (mac cbs) 6 in
      let packet := <[12%nat := 0x01]> packet in
      let packet := <[13%nat := 0x01]> packet in
      let '(packet, i) := fill_pattern 64 0 packet in
      (packet, i + 14)
    else if Z.rem (data_type st) 4 =? 2 then
      let packet := memset packet 0 0xff 6 in
      let packet := memcpy packet 6 (mac cbs) 6 in
      let packet := <[12%nat := 0x73]> packet in
      let packet := <[13%nat := 0x70]> packet in
      let packet := <[14%nat := 0x07]> packet in
      let packet := <[15%nat := 0x3d]> packet in
      let packet := <[16%nat := 0xd0]> packet in
      let packet := <[17%nat := 0x37]> packet in
      let packet := <[18%nat := Z.lor (Z.lor 0xd0 0x08) 0x01]> packet in
      let packet := <[19%nat := 0x3e]> packet in
      let packet := <[20%nat := 0x70]> packet in
      let packet := <[21%nat := 0x85]> packet in
      (packet, 22)
    else
      (packet, 0) in
  ({| data_type := int32 (data_type st + 1); cb := cbs |}, packet, size).

(** The payload handed back: the first [size] bytes of the buffer. *)
Definition payload (packet : list Z) (size : Z) : list Z :=
  take (Z.to_nat size) packet.

(** [n] consecutive calls on one buffer (the caller owns the buffer and hands
    it in again, so each call sees what the previous one left); the payloads
    in call order and the state after the last call. *)
Fixpoint calls_from (n : nat) (st : state) (packet : list Z)
    : list (list Z) * state :=
  match n with
  | O => ([], st)
  | S n' =>
      let '(st1, packet1, size) := my_datatx st packet in
      let '(ps, st2) := calls_from n' st1 packet1 in
      (payload packet1 size :: ps, st2)
  end.

(** *** The frames named by the design document *)

(** What every call does to the counters, whichever branch it takes. *)
Definition tick (st : state) : state :=
  {| data_type := int32 (data_type st + 1);
     cb := {| calls := int32 (calls (cb st) + 1); mac := mac (cb st) |} |}.

Definition broadcast : list Z := [0xff; 0xff; 0xff; 0xff; 0xff; 0xff].

Definition ascending (n : nat) : list Z := map Z.of_nat (seq 0 n).

Definition test_pattern_frame (src : list Z) : list Z :=
  broadcast ++ src ++ [0x01; 0x01] ++ ascending 64.

Definition position_payload : list Z :=
  [0x07; 0x3d; 0xd0; 0x37; 0xd9; 0x3e; 0x70; 0x85].

Definition position_frame (src : list Z) : list Z :=
  broadcast ++ src ++ [0x73; 0x70] ++ position_payload.

(** One turn of the cycle of four. *)
Definition cycle (src : list Z) : list (list Z) :=
  [[]; test_pattern_frame src; position_frame src; []].

End DataTx.

(** ** C [float]: IEEE 754 binary32 *)

Module Float32.

Definition prec : Z := 24.
Definition emax : Z := 128.

Definition zero : spec_float := S754_zero false.

(** Conversion of an integer, as in [(float) n]: round to nearest even. *)
Definition of_int (n : Z) : spec_float := binary_normalize prec emax n 0 false.

Definition add : spec_float -> spec_float -> spec_float := SFadd prec emax.
Definition sub : spec_float -> spec_float -> spec_float := SFsub prec emax.
Definition div : spec_float -> spec_float -> spec_float := SFdiv prec emax.

(** The C comparison [x < y]; false as soon as an operand is a NaN. *)
Definition ltb : spec_float -> spec_float -> bool := SFltb.
Definition eqb : spec_float -> spec_float -> bool := SFeqb.

(** A value of the format: canonical mantissa, exponent in range. *)
Definition valid (x : spec_float) : bool := valid_binary prec emax x.

(** The exact value of a zero or finite float in units of [2 ^ -149], the
    smallest positive binary32 number: an integer for every valid float. *)
Definition units (x : spec_float) : option Z :=
  match x with
  | S754_zero _ => Some 0
  | S754_finite s m e =>
      Some (cond_Zopp s (Z.pos m * 2 ^ (e - emin prec emax)))
  | _ => None
  end.

End Float32.

(** ** The transmit driver *)

Module Driver.

Inductive FrameDecision := VOICE | DATA.

(** *** The FreeDV and Codec 2 libraries

    The driver reaches the modem and the codec only through [freedv_api.h]
    and [codec2.h].  The calls it makes are the fields below; a session
    ([struct freedv]) and a codec ([struct CODEC2]) are values threaded
    through them.  A call that fills a caller-supplied buffer returns what it
    stores from the start of that buffer. *)
Class Api := {
  freedv : Type;
  CODEC2 : Type;
  (** the mode numbers the two headers define *)
  FREEDV_MODE_2400A : Z;
  FREEDV_MODE_2400B : Z;
  FREEDV_MODE_800XA : Z;
  FREEDV_MODE_700C : Z;
  FREEDV_MODE_700D : Z;
  CODEC2_MODE_1300 : Z;
  CODEC2_MODE_700C : Z;
  (** [NULL] is [None] *)
  freedv_open : Z -> option freedv;
  freedv_set_data_header : freedv -> list Z -> freedv;
  freedv_set_verbose : freedv -> Z -> freedv;
  freedv_set_callback_data : freedv -> freedv;
  freedv_get_n_speech_samples : freedv -> Z;
  freedv_get_n_nom_modem_samples : freedv -> Z;
  freedv_get_bits_per_codec_frame : freedv -> Z;
  freedv_get_bits_per_modem_frame : freedv -> Z;
  (** [freedv_datatx (f, mod_out)]; the library may run the registered
      transmit callback, here handed over with the memory it works on *)
  freedv_datatx :
    freedv -> (DataTx.state -> list Z -> DataTx.state * list Z * Z) ->
    DataTx.state -> freedv * DataTx.state * list Z;
  (** [freedv_tx (f, mod_out, speech_in)] *)
  freedv_tx : freedv -> list Z -> freedv * list Z;
  (** [freedv_rawdata_from_codec_frames (f, rawdata, encoded)] *)
  freedv_rawdata_from_codec_frames : freedv -> list Z -> list Z;
  (** [freedv_rawdatatx (f, mod_out, rawdata)] *)
  freedv_rawdatatx : freedv -> list Z -> freedv * list Z;
  codec2_create : Z -> option CODEC2;
  codec2_samples_per_frame : CODEC2 -> Z;
  (** [codec2_encode (c2, bytes, speech)] *)
  codec2_encode : CODEC2 -> list Z -> CODEC2 * list Z;
  (** [codec2_get_energy (c2, bytes)] *)
  codec2_get_energy : CODEC2 -> list Z -> spec_float
}.

(** *** The C library and the process environment *)

(** [fread (buf, sizeof (short), n, stream)] on a stream of whole samples:
    the items read and the rest of the stream.  The returned count is the
    length of the first component. *)
Definition fread (stream : list Z) (n : Z) : list Z * list Z :=
  (take (Z.to_nat n) stream, drop (Z.to_nat n) stream).

Definition isspace (c : Z) : bool := (c =? 32) || ((9 <=? c) && (c <=? 13)).
Definition isdigit (c : Z) : bool := (48 <=? c) && (c <=? 57).

Fixpoint atoi_digits (s : string) (acc : Z) : Z :=
  match s with
  | String c s' =>
      if isdigit (char_code c) then atoi_digits s' (acc * 10 + (char_code c - 48))
      else acc
  | EmptyString => acc
  end.

Definition atoi_signed (s : string) : Z :=
  match s with
  | String c s' =>
      if char_code c =? 45 then - atoi_digits s' 0
      else if char_code c =? 43 then atoi_digits s' 0
      else atoi_digits s 0
  | EmptyString => 0
  end.

(** The number a string starts with: white space, an optional sign, decimal
    digits. *)
Fixpoint decimal (s : string) : Z :=
  match s with
  | String c s' => if isspace (char_code c) then decimal s' else atoi_signed s
  | EmptyString => 0
  end.

Definition LONG_MAX : Z := 2 ^ 63 - 1.
Definition LONG_MIN : Z := - 2 ^ 63.

(** [strtol (s, NULL, 10)]: a number outside the range of [long] is returned
    as [LONG_MAX] or [LONG_MIN]. *)
Definition strtol (s : string) : Z := Z.max LONG_MIN (Z.min LONG_MAX (decimal s)).

(** [atoi (s)] is [(int) strtol (s, NULL, 10)]: a number that does not fit an
    [int] comes back cut to its low 32 bits. *)
Definition atoi (s : string) : Z := int32 (strtol s).

(** What the process finds around it. *)
Record Env := {
  (** samples waiting on standard input *)
  stdin_samples : list Z;
  (** [fopen (path, "rb")]: the [strerror (errno)] text, or the samples *)
  fopen_rb : string -> string + list Z;
  (** [fopen (path, "wb")]: the [strerror (errno)] text on failure *)
  fopen_wb : string -> option string;
  (** [(float) atof (s)] *)
  atof : string -> spec_float;
  (** the line a failed [assert (expr)] of source line [line] prints on
      [stderr] before it aborts; its format is the C library's *)
  assert_text : string -> Z -> string;
  (** what [malloc] returns is not initialised: the sample found at each
      index of a new buffer *)
  heap_junk : nat -> Z;
  (** [my_cb_state] lives on [main]'s stack and is not initialised *)
  stack_junk : DataTx.my_callback_state
}.

Definition malloc_shorts (env : Env) (n : Z) : list Z :=
  map (heap_junk env) (seq 0 (Z.to_nat n)).

(** [VLA_CALLOC (unsigned char, name, n)]: the macro comes from [defines.h],
    which is not part of this file; it is taken to give [n] bytes set to
    zero, as [calloc] does.  The bytes only ever reach the library. *)
Definition VLA_CALLOC (n : Z) : list Z := replicate (Z.to_nat n) 0.

(** How a run ends. *)
Inductive termination :=
| Exited (status : Z)       (** [exit (status)] or [return status] from [main] *)
| Aborted (expr : string) (line : Z)
                            (** a failed [assert (expr)] at a source line *)
| Undefined                 (** a [NULL] dereference or a division by zero *)
| Running.                  (** still looping when the fuel ran out *)

Record outcome := {
  term : termination;
  (** text sent to [stderr] by [main], oldest first *)
  err : list string;
  (** text sent to [stdout] by [printf] *)
  out : list string;
  (** blocks sent to the output stream by [fwrite], oldest first *)
  modem : list (list Z)
}.

Definition nl : string := String "010" EmptyString.

Definition usage (prog : string) : list string :=
  [("usage: " ++ prog ++ " 2400A|2400B|800XA InputRawSpeechFile OutputModemRawFile"
     ++ nl ++ " [--codectx]  [--callsign callsign] [--ssid ssid] [--mac-multicast "
     ++ "0|1] [--data-threshold val]" ++ nl)%string;
   ("e.g    " ++ prog ++ " 2400A hts1a.raw hts1a_fdmdv.raw" ++ nl)%string].

(** *** Energy of a block *)

(** [for (i = 0; i < nr; i++) e += (float)(samples[i] * samples[i]) / (8192);]
    with [n] iterations left.  The product of two [short]s fits an [int]. *)
Fixpoint energy_sum (samples : list Z) (n : nat) (i : nat) (e : spec_float)
    : spec_float :=
  match n with
  | O => e
  | S n' =>
      let s := nth i samples 0 in
      energy_sum samples n' (S i)
        (Float32.add e (Float32.div (Float32.of_int (s * s)) (Float32.of_int 8192)))
  end.

Definition samples_get_energy (samples : list Z) (nr : Z) : spec_float :=
  Float32.div (energy_sum samples (Z.to_nat nr) 0 Float32.zero) (Float32.of_int nr).

(** The test [if (energy < data_threshold)] made on every block: a quiet
    block carries data, any other block carries voice. *)
Definition decide (energy data_threshold : spec_float) : FrameDecision :=
  if Float32.ltb energy data_threshold then DATA else VOICE.

(** *** One block *)

Section WithApi.

Context {api : Api}.

(** The variables of [main] that the loop reads and writes. *)
Record session := {
  fdv : freedv;
  use_codectx : Z;
  c2 : option CODEC2;
  cbs : DataTx.state;
  data_threshold : spec_float;
  n_speech_samples : Z;
  n_nom_modem_samples : Z;
  speech_in : list Z;
  mod_out : list Z
}.

(** Storing [ws] from the start of a buffer, in place. *)
Definition store (buf ws : list Z) : list Z := list_inserts 0 ws buf.

Definition set_speech_in (s : session) (buf : list Z) : session :=
  {| fdv := fdv s; use_codectx := use_codectx s; c2 := c2 s; cbs := cbs s;
     data_threshold := data_threshold s;
     n_speech_samples := n_speech_samples s;
     n_nom_modem_samples := n_nom_modem_samples s;
     speech_in := buf; mod_out := mod_out s |}.

(** The session after a transmit call: library state, codec, callback memory
    and the samples left in [mod_out]. *)
Definition after_tx (s : session) (f : freedv) (c : option CODEC2)
    (cb : DataTx.state) (ws : list Z) : session :=
  {| fdv := f; use_codectx := use_codectx s; c2 := c; cbs := cb;
     data_threshold := data_threshold s;
     n_speech_samples := n_speech_samples s;
     n_nom_modem_samples := n_nom_modem_samples s;
     speech_in := speech_in s; mod_out := store (mod_out s) ws |}.

(** [for (i = 0; i < codec_frames; i++)] of the [--codectx] branch, with [n]
    iterations left; [enc_frame] and [speech_frame] are offsets into
    [encoded] and [speech]. *)
Fixpoint encode_frames (n : nat) (c : CODEC2)
    (bytes_per_codec_frame samples_per_frame : Z)
    (enc_frame speech_frame : Z) (speech encoded : list Z) (energy : spec_float)
    : CODEC2 * list Z * spec_float :=
  match n with
  | O => (c, encoded, energy)
  | S n' =>
      let '(c, bytes) := codec2_encode c (drop (Z.to_nat speech_frame) speech) in
      let encoded := list_inserts (Z.to_nat enc_frame) bytes encoded in
      let energy :=
        Float32.add energy (codec2_get_energy c (drop (Z.to_nat enc_frame) encoded)) in
      encode_frames n' c bytes_per_codec_frame samples_per_frame
        (enc_frame + bytes_per_codec_frame) (speech_frame + samples_per_frame)
        speech encoded energy
  end.

(** The energy the [--codectx] branch compares with the threshold, and the
    encoded frames it got on the way.  [None]: [c2] was never created, or
    [bits_per_codec_frame] is zero and the division traps. *)
Definition codectx_encode (s : session)
    : option (CODEC2 * list Z * spec_float) :=
  match c2 s with
  | None => None
  | Some c =>
      let bits_per_codec_frame := freedv_get_bits_per_codec_frame (fdv s) in
      let bits_per_modem_frame := freedv_get_bits_per_modem_frame (fdv s) in
      let bytes_per_codec_frame := Z.quot (bits_per_codec_frame + 7) 8 in
      if bits_per_codec_frame =? 0 then None
      else
        let codec_frames := Z.quot bits_per_modem_frame bits_per_codec_frame in
        let samples_per_frame := codec2_samples_per_frame c in
        let encoded := VLA_CALLOC (bytes_per_codec_frame * codec_frames) in
        let '(c, encoded, energy) :=
          encode_frames (Z.to_nat codec_frames) c bytes_per_codec_frame
            samples_per_frame 0 0 (speech_in s) encoded Float32.zero in
        Some (c, encoded, Float32.div energy (Float32.of_int codec_frames))
  end.

(** The energy score the loop body computes for the block in [speech_in]. *)
Definition block_energy (s : session) : option spec_float :=
  if use_codectx s =? 0
  then Some (samples_get_energy (speech_in s) (n_speech_samples s))
  else match codectx_encode s with
       | Some (_, _, energy) => Some energy
       | None => None
       end.

(** The body of the main loop up to [fwrite]: which kind of frame was put
    into [mod_out], and the session afterwards.  [None] is undefined
    behaviour. *)
Definition tx_block (s : session) : option (FrameDecision * session) :=
  if use_codectx s =? 0 then
    let energy := samples_get_energy (speech_in s) (n_speech_samples s) in
    match decide energy (data_threshold s) with
    | DATA =>
        let '(f, cb, ws) := freedv_datatx (fdv s) DataTx.my_datatx (cbs s) in
        Some (DATA, after_tx s f (c2 s) cb ws)
    | VOICE =>
        let '(f, ws) := freedv_tx (fdv s) (speech_in s) in
        Some (VOICE, after_tx s f (c2 s) (cbs s) ws)
    end
  else
    match codectx_encode s with
    | None => None
    | Some (c, encoded, energy) =>
        match decide energy (data_threshold s) with
        | DATA =>
            let '(f, cb, ws) := freedv_datatx (fdv s) DataTx.my_datatx (cbs s) in
            Some (DATA, after_tx s f (Some c) cb ws)
        | VOICE =>
            let bytes_per_modem_frame :=
              Z.quot (freedv_get_bits_per_modem_frame (fdv s) + 7) 8 in
            let rawdata :=
              store (VLA_CALLOC bytes_per_modem_frame)
                    (freedv_rawdata_from_codec_frames (fdv s) encoded) in
            let '(f, ws) := freedv_rawdatatx (fdv s) rawdata in
            Some (VOICE, after_tx s f (Some c) (cbs s) ws)
        end
    end.

(** The [--codectx] branch cannot trap: it is not taken, or the codec was
    created and the library never reports a codec frame of zero bits. *)
Definition codectx_ready (s : session) : Prop :=
  use_codectx s = 0
  \/ (c2 s <> None /\ forall f, freedv_get_bits_per_codec_frame f <> 0).

(** *** The main loop *)

Inductive loop_end := EndOfStream | Trapped | OutOfFuel.

(** [while (fread (speech_in, sizeof (short), n_speech_samples, fin) ==
    n_speech_samples) { ...; fwrite (mod_out, sizeof (short),
    n_nom_modem_samples, fout); }].  Each unit of fuel pays for one [fread];
    [written] collects the blocks handed to [fwrite], oldest first.  [main]
    enters the loop with both counts non-negative, where their conversion to
    [size_t] changes nothing. *)
Fixpoint main_loop (fuel : nat) (s : session) (fin : list Z)
    (written : list (list Z)) : loop_end * session * list (list Z) :=
  match fuel with
  | O => (OutOfFuel, s, written)
  | S fuel' =>
      let '(items, rest) := fread fin (n_speech_samples s) in
      let s := set_speech_in s (store (speech_in s) items) in
      if Z.of_nat (length items) =? n_speech_samples s then
        match tx_block s with
        | None => (Trapped, s, written)
        | Some (_, s) =>
            main_loop fuel' s rest
              (written ++ [take (Z.to_nat (n_nom_modem_samples s)) (mod_out s)])
        end
      else (EndOfStream, s, written)
  end.

End WithApi.

(** *** [main] *)

Section Main.

Context {api : Api}.

(** The locals of [main] set from the command line ([NULL] is [None]). *)
Record options := {
  callsign : option string;
  ssid : Z;
  multicast : bool;
  opt_use_codectx : Z;
  opt_c2 : option CODEC2;
  opt_data_threshold : spec_float
}.

Definition default_options : options :=
  {| callsign := Some "NOCALL"%string; ssid := 0; multicast := false;
     opt_use_codectx := 0; opt_c2 := None;
     opt_data_threshold := Float32.of_int 15 |}.

(** A step of start-up either goes on with a value or ends the run. *)
Definition startup (A : Type) : Type := (A + termination)%type.

Definition bind {A B : Type} (m : startup A) (k : A -> startup B) : startup B :=
  match m with
  | inl a => k a
  | inr t => inr t
  end.

Notation "x <- m ;; k" := (bind m (fun x => k))
  (at level 100, m at next level, k at level 200, right associativity).

Definition parse_mode (a : string) : Z :=
  let mode := -1 in
  let mode := if String.eqb a "2400A" then FREEDV_MODE_2400A else mode in
  let mode := if String.eqb a "2400B" then FREEDV_MODE_2400B else mode in
  let mode := if String.eqb a "800XA" then FREEDV_MODE_800XA else mode in
  mode.

(** The body of [for (i = 4; i < argc; i++)]: five independent tests on
    [argv[i]].  [argv[i + 1]] is [NULL] when [i] is the last index. *)
Definition parse_arg (env : Env) (mode : Z) (argv : list string) (i : nat)
    (o : options) : startup options :=
  let a := default ""%string (argv !! i) in
  o <- (if String.eqb a "--codectx" then
          let c2_mode :=
            if (mode =? FREEDV_MODE_700C) || (mode =? FREEDV_MODE_700D)
               || (mode =? FREEDV_MODE_800XA)
            then CODEC2_MODE_700C else CODEC2_MODE_1300 in
          match codec2_create c2_mode with
          | None => inr (Aborted "c2 != NULL" 260)
          | Some c =>
              inl {| callsign := callsign o; ssid := ssid o;
                     multicast := multicast o; opt_use_codectx := 1;
                     opt_c2 := Some c;
                     opt_data_threshold := opt_data_threshold o |}
          end
        else inl o) ;;
  o <- (if String.eqb a "--callsign" then
          inl {| callsign := argv !! S i; ssid := ssid o;
                 multicast := multicast o;
                 opt_use_codectx := opt_use_codectx o; opt_c2 := opt_c2 o;
                 opt_data_threshold := opt_data_threshold o |}
        else inl o) ;;
  o <- (if String.eqb a "--ssid" then
          match argv !! S i with
          | None => inr Undefined
          | Some v =>
              inl {| callsign := callsign o; ssid := atoi v;
                     multicast := multicast o;
                     opt_use_codectx := opt_use_codectx o; opt_c2 := opt_c2 o;
                     opt_data_threshold := opt_data_threshold o |}
          end
        else inl o) ;;
  o <- (if String.eqb a "--mac-multicast" then
          match argv !! S i with
          | None => inr Undefined
          | Some v =>
              inl {| callsign := callsign o; ssid := ssid o;
                     multicast := negb (atoi v =? 0);
                     opt_use_codectx := opt_use_codectx o; opt_c2 := opt_c2 o;
                     opt_data_threshold := opt_data_threshold o |}
          end
        else inl o) ;;
  if String.eqb a "--data-threshold" then
    match argv !! S i with
    | None => inr Undefined
    | Some v =>
        inl {| callsign := callsign o; ssid := ssid o;
               multicast := multicast o;
               opt_use_codectx := opt_use_codectx o; opt_c2 := opt_c2 o;
               opt_data_threshold := atof env v |}
    end
  else inl o.

(** [for (i = 4; i < argc; i++)] with [n] iterations left. *)
Fixpoint parse_args (env : Env) (mode : Z) (argv : list string) (n : nat)
    (i : nat) (o : options) : startup options :=
  match n with
  | O => inl o
  | S n' =>
      o <- parse_arg env mode argv i o ;;
      parse_args env mode argv n' (S i) o
  end.

(** [eth_ar_call2mac (my_cb_state.mac, callsign, ssid, multicast);] as
    [main] calls it: the returned status is dropped, only the buffer is
    kept.  With a [NULL] callsign the call returns on a bad ssid before it
    reads the string and traps in [strlen] otherwise. *)
Definition generate_address (mac : list Z) (o : options) : startup (list Z) :=
  match callsign o with
  | Some cs => inl (snd (EthAr.eth_ar_call2mac mac cs (ssid o) (multicast o)))
  | None => if (15 <? ssid o) || (ssid o <? 0) then inl mac else inr Undefined
  end.

(** From [freedv_open] to the first [fread]: the session the loop starts
    with.  A negative sample count makes the [malloc] size wrap to almost
    [SIZE_MAX]; the request fails and the [assert] aborts. *)
Definition open_session (env : Env) (mode : Z) (o : options) : startup session :=
  match freedv_open mode with
  | None => inr (Aborted "freedv != NULL" 278)
  | Some f =>
      mac <- generate_address (DataTx.mac (stack_junk env)) o ;;
      let my_cb_state :=
        {| DataTx.calls := DataTx.calls (stack_junk env); DataTx.mac := mac |} in
      let f := freedv_set_data_header f mac in
      let f := freedv_set_verbose f 1 in
      let n_speech := freedv_get_n_speech_samples f in
      let n_nom := freedv_get_n_nom_modem_samples f in
      if n_speech <? 0 then inr (Aborted "speech_in != NULL" 290)
      else if n_nom <? 0 then inr (Aborted "mod_out != NULL" 292)
      else
        let f := freedv_set_callback_data f in
        inl {| fdv := f; use_codectx := opt_use_codectx o; c2 := opt_c2 o;
               cbs := DataTx.fresh my_cb_state;
               data_threshold := opt_data_threshold o;
               n_speech_samples := n_speech;
               n_nom_modem_samples := n_nom;
               speech_in := malloc_shorts env n_speech;
               mod_out := malloc_shorts env n_nom |}
  end.

Definition stopped (t : termination) (e o : list string) : outcome :=
  {| term := t; err := e; out := o; modem := [] |}.

(** What a run that ends during start-up prints as it ends: the line of the
    failed [assert]; a trap prints nothing. *)
Definition diagnostic (env : Env) (t : termination) : list string :=
  match t with
  | Aborted expr line => [assert_text env expr line]
  | _ => []
  end.

(** [main] from its first statement to the first [fread]: the run ends
    there, or the loop starts with a session and an input stream. *)
Definition start (env : Env) (argv : list string)
    : outcome + (session * list Z) :=
  let arg i := default ""%string (argv !! i) in
  if (length argv <? 4)%nat then inl (stopped (Exited 1) [] (usage (arg 0%nat)))
  else
    let mode := parse_mode (arg 1%nat) in
    if mode =? -1 then
      inl (stopped (Exited 0) [("Error in mode: " ++ arg 1%nat ++ nl)%string] [])
    else
      match (if String.eqb (arg 2%nat) "-" then inr (stdin_samples env)
             else fopen_rb env (arg 2%nat)) with
      | inl e =>
          inl (stopped (Exited 1)
                 [("Error opening input raw speech sample file: " ++ arg 2%nat
                    ++ ": " ++ e ++ "." ++ nl)%string] [])
      | inr fin =>
          match (if String.eqb (arg 3%nat) "-" then None
                 else fopen_wb env (arg 3%nat)) with
          | Some e =>
              inl (stopped (Exited 1)
                     [("Error opening output modem sample file: " ++ arg 3%nat
                        ++ ": " ++ e ++ "." ++ nl)%string] [])
          | None =>
              match (o <- parse_args env mode argv (length argv - 4) 4
                            default_options ;;
                     open_session env mode o) with
              | inr t => inl (stopped t (diagnostic env t) [])
              | inl s => inr (s, fin)
              end
          end
      end.

(** [main (argc, argv)] with [argc = length argv]; [fuel] bounds the number
    of [fread] calls of the main loop.  Leaving the loop leads to
    [return 0]. *)
Definition main (fuel : nat) (env : Env) (argv : list string) : outcome :=
  match start env argv with
  | inl o => o
  | inr (s, fin) =>
      let '(e, _, written) := main_loop fuel s fin [] in
      {| term := match e with
                 | EndOfStream => Exited 0
                 | Trapped => Undefined
                 | OutOfFuel => Running
                 end;
         err := []; out := []; modem := written |}
  end.

End Main.

(** *** A library to run the driver against

    A loop-back instance of [Api]: two-sample speech blocks, three-sample
    modem blocks, a voice frame echoes the speech, a data frame runs the
    transmit callback on a 128-byte packet buffer and sends the packet
    length and the first two bytes of the source address field; the codec
    keeps the low byte of the first sample of a frame and calls a frame
    loud when that byte is not zero. *)
#[local] Instance loopback : Api := {|
  freedv := Z;
  CODEC2 := Z;
  FREEDV_MODE_2400A := 3;
  FREEDV_MODE_2400B := 4;
  FREEDV_MODE_800XA := 5;
  FREEDV_MODE_700C := 6;
  FREEDV_MODE_700D := 7;
  CODEC2_MODE_1300 := 4;
  CODEC2_MODE_700C := 8;
  freedv_open := fun mode => Some mode;
  freedv_set_data_header := fun f _ => f;
  freedv_set_verbose := fun f _ => f;
  freedv_set_callback_data := fun f => f;
  freedv_get_n_speech_samples := fun _ => 2;
  freedv_get_n_nom_modem_samples := fun _ => 3;
  freedv_get_bits_per_codec_frame := fun _ => 8;
  freedv_get_bits_per_modem_frame := fun _ => 16;
  freedv_datatx := fun f cb st =>
    let '(st, packet, size) := cb st (replicate 128 0) in
    (f, st, size :: take 2 (drop 6 packet));
  freedv_tx := fun f speech => (f, take 2 speech ++ [1]);
  freedv_rawdata_from_codec_frames := fun _ encoded => encoded;
  freedv_rawdatatx := fun f rawdata => (f, take 2 rawdata ++ [2]);
  codec2_create := fun mode => Some mode;
  codec2_samples_per_frame := fun _ => 1;
  codec2_encode := fun c speech => (c, [uint8 (hd 0 speech)]);
  codec2_get_energy := fun _ bytes =>
    if hd 0 bytes =? 0 then Float32.zero else Float32.of_int 1000
|}.

Definition demo_env (samples : list Z) : Env :=
  {| stdin_samples := samples;
     fopen_rb := fun _ => inl "No such file or directory"%string;
     fopen_wb := fun _ => Some "Permission denied"%string;
     atof := fun _ => Float32.of_int 15;
     assert_text := fun expr _ =>
       ("freedv_mixed_tx: Assertion `" ++ expr ++ "' failed." ++ nl)%string;
     heap_junk := fun _ => 0;
     stack_junk := {| DataTx.calls := 0; DataTx.mac := [1; 2; 3; 4; 5; 6] |} |}.

End Driver.

(** ** Vocabulary of the further properties *)

(** A float that is not below zero: a zero, a positive number, [+inf], or a
    NaN (which is below nothing). *)
Definition not_negative (x : spec_float) : Prop :=
  match x with
  | S754_zero _ | S754_nan => True
  | S754_infinity s | S754_finite s _ _ => s = false
  end.


(** A session of the loop-back library with a given block length, as
    [main] would set it up for ["2400A"] without options. *)
Definition demo_session (n_speech : Z) : @Driver.session Driver.loopback :=
  @Driver.Build_session Driver.loopback
    3                                          (* fdv *)
    0                                          (* use_codectx *)
    None                                       (* c2 *)
    (DataTx.fresh (Driver.stack_junk (Driver.demo_env [])))
    (Float32.of_int 15)                        (* data_threshold *)
    n_speech                                   (* n_speech_samples *)
    3                                          (* n_nom_modem_samples *)
    (replicate (Z.to_nat n_speech) 0)          (* speech_in *)
    [0; 0; 0].                                 (* mod_out *)

(** A session of the loop-back library that holds one block of speech in
    [speech_in], as the loop finds it after [fread]: without [--codectx], or
    with it and the codec it creates. *)
Definition demo_block (codectx : bool) (speech : list Z)
    : @Driver.session Driver.loopback :=
  @Driver.Build_session Driver.loopback
    3                                          (* fdv *)
    (Z.b2z codectx)                            (* use_codectx *)
    (if codectx then Some 4 else None)         (* c2 *)
    (DataTx.fresh (Driver.stack_junk (Driver.demo_env [])))
    (Float32.of_int 15)                        (* data_threshold *)
    2                                          (* n_speech_samples *)
    3                                          (* n_nom_modem_samples *)
    speech                                     (* speech_in *)
    [0; 0; 0].                                 (* mod_out *)

(** * Properties *)

(** Splits a buffer known to hold at least [n] bytes into its first [n]
    bytes, named, and the rest. *)
Tactic Notation "open_buffer" ident(packet) hyp(Hlen) integer(n) :=
  do n (destruct packet as [|? packet]; [simpl in Hlen; lia|]).

(** ** Finite case analysis *)

(** A decidable property of the integers [0 .. n - 1] is settled by running
    its test on each of them. *)
Lemma range_cases (n : nat) (f : Z -> bool) :
  forallb (fun k => f (Z.of_nat k)) (seq 0 n) = true ->
  forall x, 0 <= x < Z.of_nat n -> f x = true.
Proof.
  intros Hall x Hx.
  rewrite forallb_forall in Hall.
  specialize (Hall (Z.to_nat x)).
  rewrite Z2Nat.id in Hall by lia.
  apply Hall, in_seq. lia.
Qed.

(** ** The address encoder *)

Section EthArFacts.

Import EthAr.

Lemma table_scan_bounds tbl c j :
  j <= table_scan tbl c j <= j + Z.of_nat (length tbl).
Proof.
  revert j. induction tbl as [|x tbl IH]; intros j; simpl.
  - lia.
  - destruct (x =? c); [lia|]. specialize (IH (j + 1)). lia.
Qed.

Lemma table_scan_miss tbl c j :
  ~ In c tbl -> table_scan tbl c j = j + Z.of_nat (length tbl).
Proof.
  revert j. induction tbl as [|x tbl IH]; intros j Hnot; simpl.
  - lia.
  - destruct (Z.eqb_spec x c) as [->|_].
    + exfalso. apply Hnot. now left.
    + rewrite IH by (intros Hin; apply Hnot; now right). lia.
Qed.

Lemma table_scan_hit tbl c j :
  In c tbl -> table_scan tbl c j < j + Z.of_nat (length tbl).
Proof.
  revert j. induction tbl as [|x tbl IH]; intros j Hin; simpl.
  - destruct Hin.
  - destruct (Z.eqb_spec x c) as [->|Hne].
    + lia.
    + destruct Hin as [Heq|Hin]; [congruence|].
      specialize (IH (j + 1) Hin). lia.
Qed.

Lemma symbol_index_range c : 0 <= symbol_index c <= 37.
Proof. apply (table_scan_bounds alnum2code c 0). Qed.

Lemma symbol_index_in c : in_alphabet c = true -> 0 <= symbol_index c < 37.
Proof.
  unfold in_alphabet. rewrite existsb_exists. intros (x & Hin & Heq).
  apply Z.eqb_eq in Heq. subst x.
  pose proof (table_scan_hit alnum2code c 0 Hin).
  pose proof (symbol_index_range c).
  unfold symbol_index in *.
  change (Z.of_nat (length alnum2code)) with 37 in *. lia.
Qed.

Lemma symbol_index_out c : in_alphabet c = false -> symbol_index c = 37.
Proof.
  intros Hout. unfold symbol_index.
  rewrite table_scan_miss; [reflexivity|].
  intros Hin. apply not_true_iff_false in Hout. apply Hout.
  unfold in_alphabet. rewrite existsb_exists. exists c. split; [exact Hin|].
  apply Z.eqb_refl.
Qed.

(** The digit the loop adds at position [p] is the digit of the design
    document: the pad character scans to index 36. *)
Lemma scanned_digit callsign p :
  symbol_index (scanned_char callsign p) = digit_at callsign p.
Proof.
  unfold scanned_char, digit_at.
  destruct (strlen callsign <=? p)%nat; reflexivity.
Qed.

Lemma valid_callsign_digit callsign p :
  valid_callsign callsign = true -> (p < 8)%nat ->
  0 <= digit_at callsign p < 37.
Proof.
  intros Hv Hp. unfold digit_at.
  destruct (Nat.leb_spec (strlen callsign) p) as [Hle|Hlt]; [lia|].
  apply symbol_index_in.
  unfold valid_callsign in Hv. rewrite forallb_forall in Hv.
  apply Hv, in_seq. lia.
Qed.

Lemma base37_value_bounds d n :
  (forall p, (p < n)%nat -> 0 <= d p < 37) ->
  0 <= base37_value d n < 37 ^ Z.of_nat n.
Proof.
  induction n as [|n IH]; intros Hd.
  - simpl. lia.
  - cbn [base37_value]. rewrite Nat2Z.inj_succ, Z.pow_succ_r by lia.
    assert (0 <= base37_value d n < 37 ^ Z.of_nat n) as Hn
      by (apply IH; intros p Hp; apply Hd; lia).
    assert (0 <= d n < 37) as Hdn by (apply Hd; lia).
    nia.
Qed.

(** The loop computes [add * 37 ^ n] plus the value of the [n] low digits,
    as long as that stays inside 64 bits. *)
Lemma call2mac_scan_value callsign n add :
  (forall p, (p < n)%nat -> 0 <= digit_at callsign p < 37) ->
  0 <= add -> (add + 1) * 37 ^ Z.of_nat n <= 2 ^ 64 ->
  call2mac_scan callsign n add
  = Some (add * 37 ^ Z.of_nat n + base37_value (digit_at callsign) n).
Proof.
  revert add. induction n as [|n IH]; intros add Hd Hadd Hfit.
  - simpl. f_equal. lia.
  - cbn [call2mac_scan base37_value]. rewrite scanned_digit.
    assert (0 <= digit_at callsign n < 37) as Hdn by (apply Hd; lia).
    rewrite Nat2Z.inj_succ, Z.pow_succ_r in * by lia.
    assert (0 < 37 ^ Z.of_nat n) as Hpow by (apply Z.pow_pos_nonneg; lia).
    unfold sizeof_alnum2code.
    destruct (Z.eqb_spec (digit_at callsign n) 37) as [Heq|_]; [lia|].
    assert (add * 37 + digit_at callsign n < 2 ^ 64) as Hsmall by nia.
    unfold uint64.
    rewrite (Z.mod_small (add * 37)) by lia.
    rewrite Z.mod_small by lia.
    rewrite IH; [f_equal; ring | intros p Hp; apply Hd; lia | lia | nia].
Qed.

(** An invalid character at any scanned position makes the loop give up. *)
Lemma call2mac_scan_invalid callsign n add p :
  (p < n)%nat -> symbol_index (scanned_char callsign p) = 37 ->
  call2mac_scan callsign n add = None.
Proof.
  revert add. induction n as [|n IH]; intros add Hp Hbad; [lia|].
  cbn [call2mac_scan]. unfold sizeof_alnum2code.
  destruct (Z.eqb_spec (symbol_index (scanned_char callsign n)) 37) as [_|Hne];
    [reflexivity|].
  apply IH; [|exact Hbad].
  destruct (Nat.eq_dec p n) as [->|]; [contradiction|lia].
Qed.

Lemma accumulate_valid callsign :
  valid_callsign callsign = true ->
  accumulate callsign = Some (base37_value (digit_at callsign) 8)
  /\ 0 <= base37_value (digit_at callsign) 8 < 37 ^ 8.
Proof.
  intros Hv. split.
  - unfold accumulate. rewrite call2mac_scan_value.
    + f_equal.
    + intros p Hp. now apply valid_callsign_digit.
    + lia.
    + vm_compute. discriminate.
  - apply (base37_value_bounds _ 8). intros p Hp. now apply valid_callsign_digit.
Qed.

Lemma table_scan_nth tbl c j :
  In c tbl -> nth (Z.to_nat (table_scan tbl c j - j)) tbl (-1) = c.
Proof.
  revert j. induction tbl as [|x tbl IH]; intros j Hin; [destruct Hin|].
  simpl table_scan. destruct (Z.eqb_spec x c) as [->|Hne].
  - rewrite Z.sub_diag. reflexivity.
  - destruct Hin as [Heq|Hin]; [congruence|].
    pose proof (table_scan_bounds tbl c (j + 1)).
    replace (Z.to_nat (table_scan tbl c (j + 1) - j))
      with (S (Z.to_nat (table_scan tbl c (j + 1) - (j + 1)))) by lia.
    simpl. now apply IH.
Qed.

Lemma symbol_index_nth c :
  in_alphabet c = true -> nth (Z.to_nat (symbol_index c)) alnum2code (-1) = c.
Proof.
  unfold in_alphabet. rewrite existsb_exists. intros (x & Hin & Heq).
  apply Z.eqb_eq in Heq. subst x.
  pose proof (table_scan_nth alnum2code c 0 Hin) as Hnth.
  now rewrite Z.sub_0_r in Hnth.
Qed.

(** Digit [p] of the value is [d p]. *)
Lemma base37_value_digit d n p :
  (forall q, (q < n)%nat -> 0 <= d q < 37) -> (p < n)%nat ->
  (base37_value d n / 37 ^ Z.of_nat p) mod 37 = d p.
Proof.
  induction n as [|n IH]; intros Hd Hp; [lia|].
  cbn [base37_value].
  assert (0 <= base37_value d n < 37 ^ Z.of_nat n) as Hn
    by (apply base37_value_bounds; intros q Hq; apply Hd; lia).
  assert (0 < 37 ^ Z.of_nat p) as Hpow by (apply Z.pow_pos_nonneg; lia).
  destruct (Nat.eq_dec p n) as [->|Hne].
  - rewrite Z.div_add by lia. rewrite Z.div_small by lia.
    apply Z.mod_small, Hd. lia.
  - replace (Z.of_nat n) with (Z.of_nat p + 1 + Z.of_nat (n - p - 1)) by lia.
    rewrite !Z.pow_add_r, Z.pow_1_r by lia.
    replace (d n * (37 ^ Z.of_nat p * 37 * 37 ^ Z.of_nat (n - p - 1)))
      with (d n * 37 ^ Z.of_nat (n - p - 1) * 37 * 37 ^ Z.of_nat p) by ring.
    rewrite Z.div_add by lia. rewrite Z.mod_add by lia.
    apply IH; [intros q Hq; apply Hd; lia | lia].
Qed.

Lemma base37_value_8 d :
  base37_value d 8
  = d 0%nat + d 1%nat * 37 + d 2%nat * 37 ^ 2 + d 3%nat * 37 ^ 3
    + d 4%nat * 37 ^ 4 + d 5%nat * 37 ^ 5 + d 6%nat * 37 ^ 6 + d 7%nat * 37 ^ 7.
Proof. cbn [base37_value Z.of_nat Pos.of_succ_nat Pos.succ]. lia. Qed.

(** C2: for an identifier whose first [min (length, 8)] characters are in the
    alphabet once upper-cased, the integer accumulated by the scan is
    [sum over p < 8 of digit p * 37 ^ p]: position 0 is the least significant
    base-37 digit, the digit of a position inside the identifier is the table
    index of its upper-cased character, and every position at or beyond the
    end of the identifier contributes the pad digit 36. *)
Theorem accumulate_base37 (callsign : string) :
  valid_callsign callsign = true ->
  exists v,
    accumulate callsign = Some v
    /\ v = digit_at callsign 0 + digit_at callsign 1 * 37
           + digit_at callsign 2 * 37 ^ 2 + digit_at callsign 3 * 37 ^ 3
           + digit_at callsign 4 * 37 ^ 4 + digit_at callsign 5 * 37 ^ 5
           + digit_at callsign 6 * 37 ^ 6 + digit_at callsign 7 * 37 ^ 7
    /\ (forall p, (p < 8)%nat ->
          0 <= digit_at callsign p < 37
          /\ (v / 37 ^ Z.of_nat p) mod 37 = digit_at callsign p)
    /\ (forall p, (p < Nat.min (strlen callsign) 8)%nat ->
          nth (Z.to_nat (digit_at callsign p)) alnum2code (-1)
          = toupper (char_at callsign p))
    /\ (forall p, (strlen callsign <= p)%nat -> digit_at callsign p = 36).
Proof.
  intros Hv.
  destruct (accumulate_valid callsign Hv) as [Hacc _].
  pose proof (fun p => valid_callsign_digit callsign p Hv) as Hd.
  exists (base37_value (digit_at callsign) 8).
  split; [exact Hacc|]. split; [apply base37_value_8|].
  split; [|split].
  - intros p Hp. split; [now apply Hd|].
    apply base37_value_digit; [intros q Hq; now apply Hd | exact Hp].
  - intros p Hp. unfold digit_at.
    destruct (Nat.leb_spec (strlen callsign) p) as [Hle|_]; [lia|].
    apply symbol_index_nth.
    unfold valid_callsign in Hv. rewrite forallb_forall in Hv.
    apply Hv, in_seq. lia.
  - intros p Hp. unfold digit_at.
    destruct (Nat.leb_spec (strlen callsign) p) as [_|Hlt]; [reflexivity|lia].
Qed.

(** C2 at the default callsign: the hypothesis holds and the theorem
    applies. *)
Lemma accumulate_base37_witness :
  valid_callsign "NOCALL" = true
  /\ exists v, accumulate "NOCALL" = Some v /\ v mod 37 = 23.
Proof.
  split; [reflexivity|].
  destruct (accumulate_base37 "NOCALL" eq_refl) as (v & Hacc & _ & Hdig & _).
  exists v. split; [exact Hacc|].
  destruct (Hdig 0%nat ltac:(lia)) as [_ H0].
  change (37 ^ Z.of_nat 0) with 1 in H0. rewrite Z.div_1_r in H0. exact H0.
Defined.

(** *** Bit layout of the address *)

Lemma land_c0 x : 0 <= x < 256 -> Z.land x 0xc0 = 64 * Z.shiftr x 6.
Proof.
  intros Hx. apply Z.eqb_eq.
  apply (range_cases 256 (fun x => Z.land x 0xc0 =? 64 * Z.shiftr x 6));
    [vm_compute; reflexivity | lia].
Qed.

(** Byte 0 for every value [t] of the two top bits, every SSID and both
    multicast flags: 128 cases, each of them computed. *)
Lemma byte0_cases t ssid multicast :
  0 <= t < 4 -> 0 <= ssid <= 15 ->
  let byte0 b := uint8 (Z.lor (Z.lor (Z.lor (64 * t) (Z.shiftl ssid 2)) 0x02)
                              (Z.b2z b)) in
  byte0 multicast = 64 * t + 4 * ssid + 2 + Z.b2z multicast
  /\ Z.shiftr (byte0 multicast) 6 = t
  /\ Z.land (Z.shiftr (byte0 multicast) 2) 0xf = ssid
  /\ Z.testbit (byte0 multicast) 1 = true
  /\ Z.testbit (byte0 multicast) 0 = multicast
  /\ byte0 (negb multicast) = Z.lxor (byte0 multicast) 1.
Proof.
  intros Ht Hs byte0.
  pose (check := fun x =>
    let t := x / 16 in
    let ssid := x mod 16 in
    let b0 b := uint8 (Z.lor (Z.lor (Z.lor (64 * t) (Z.shiftl ssid 2)) 0x02)
                             (Z.b2z b)) in
    forallb (fun b =>
      (b0 b =? 64 * t + 4 * ssid + 2 + Z.b2z b)
      && (Z.shiftr (b0 b) 6 =? t)
      && (Z.land (Z.shiftr (b0 b) 2) 0xf =? ssid)
      && Z.testbit (b0 b) 1
      && Bool.eqb (Z.testbit (b0 b) 0) b
      && (b0 (negb b) =? Z.lxor (b0 b) 1)) [false; true]).
  assert (check (16 * t + ssid) = true) as Hcheck
    by (apply (range_cases 64 check); [vm_compute; reflexivity | lia]).
  unfold check in Hcheck. cbv zeta in Hcheck.
  replace ((16 * t + ssid) / 16) with t in Hcheck
    by (apply Z.div_unique with ssid; lia).
  replace ((16 * t + ssid) mod 16) with ssid in Hcheck
    by (apply Z.mod_unique with t; lia).
  rewrite forallb_forall in Hcheck.
  specialize (Hcheck multicast ltac:(destruct multicast; simpl; tauto)).
  rewrite !andb_true_iff, !Z.eqb_eq, Bool.eqb_true_iff in Hcheck.
  subst byte0. cbv beta. tauto.
Qed.

Lemma land_ff x : uint8 (Z.land x 0xff) = x mod 256.
Proof.
  unfold uint8. change 0xff with (Z.ones 8).
  rewrite Z.land_ones by lia. change (2 ^ 8) with 256.
  apply Z.mod_mod. lia.
Qed.

(** C1, as the code has it: for every identifier whose first 8 positions are
    in the alphabet once upper-cased, every SSID in [[0, 15]] and every
    multicast flag, the call succeeds; the accumulated integer is below
    [2 ^ 42]; byte 0 holds bits 41-40 of that integer in its top two bits,
    the SSID in bits 5-2, bit [0x02] set and the multicast flag in bit 0;
    bytes 1-5 hold the low 40 bits of the integer, most significant byte
    first; flipping the multicast flag flips bit 0 of byte 0 and nothing
    else.  For "NOCALL" with SSID 0 the address is [c2 31 90 55 ef b3]
    without and [c3 31 90 55 ef b3] with the multicast flag. *)
Theorem call2mac_layout (mac : list Z) (callsign : string) (ssid : Z)
    (multicast : bool) :
  length mac = 6%nat -> valid_callsign callsign = true -> 0 <= ssid <= 15 ->
  (exists add m0 m1 m2 m3 m4 m5,
     accumulate callsign = Some add /\ 0 <= add < 2 ^ 42
     /\ eth_ar_call2mac mac callsign ssid multicast
        = (0, [m0; m1; m2; m3; m4; m5])
     /\ Z.shiftr m0 6 = Z.shiftr add 40
     /\ Z.land (Z.shiftr m0 2) 0xf = ssid
     /\ Z.testbit m0 1 = true
     /\ Z.testbit m0 0 = multicast
     /\ m1 = Z.shiftr add 32 mod 256
     /\ m2 = Z.shiftr add 24 mod 256
     /\ m3 = Z.shiftr add 16 mod 256
     /\ m4 = Z.shiftr add 8 mod 256
     /\ m5 = add mod 256
     /\ be_value [m1; m2; m3; m4; m5] = add mod 2 ^ 40
     /\ be_value [Z.shiftr m0 6; m1; m2; m3; m4; m5] = add
     /\ eth_ar_call2mac mac callsign ssid (negb multicast)
        = (0, [Z.lxor m0 1; m1; m2; m3; m4; m5]))
  /\ eth_ar_call2mac mac "NOCALL" 0 false
     = (0, [0xc2; 0x31; 0x90; 0x55; 0xef; 0xb3])
  /\ eth_ar_call2mac mac "NOCALL" 0 true
     = (0, [0xc3; 0x31; 0x90; 0x55; 0xef; 0xb3]).
Proof.
  intros Hlen Hv Hs.
  destruct mac as [|a0 [|a1 [|a2 [|a3 [|a4 [|a5 [|]]]]]]]; try discriminate.
  split; [|split; reflexivity].
  destruct (accumulate_valid callsign Hv) as [Hacc Hrange].
  set (add := base37_value (digit_at callsign) 8) in *.
  assert (0 <= add < 2 ^ 42) as Hadd
    by (change (37 ^ 8) with 3512479453921 in Hrange;
        change (2 ^ 42) with 4398046511104; lia).
  assert (Z.land (Z.shiftr add (40 - 6)) 0xc0 = 64 * Z.shiftr add 40) as Htop.
  { change (40 - 6) with 34. rewrite land_c0.
    - rewrite Z.shiftr_shiftr by lia. reflexivity.
    - rewrite Z.shiftr_div_pow2 by lia.
      change (2 ^ 42) with (256 * 2 ^ 34) in Hadd.
      split; [apply Z.div_pos; lia | apply Z.div_lt_upper_bound; lia]. }
  assert (0 <= Z.shiftr add 40 < 4) as Ht.
  { rewrite Z.shiftr_div_pow2 by lia.
    change (2 ^ 42) with (4 * 2 ^ 40) in Hadd.
    split; [apply Z.div_pos; lia | apply Z.div_lt_upper_bound; lia]. }
  destruct (byte0_cases (Z.shiftr add 40) ssid multicast Ht Hs)
    as (Hval & Hsh & Hssid & Hb1 & Hb0 & Hflip).
  assert (forall b, eth_ar_call2mac [a0; a1; a2; a3; a4; a5] callsign ssid b
    = (0, [uint8 (Z.lor (Z.lor (Z.lor (64 * Z.shiftr add 40) (Z.shiftl ssid 2))
                               0x02) (Z.b2z b));
           Z.shiftr add 32 mod 256; Z.shiftr add 24 mod 256;
           Z.shiftr add 16 mod 256; Z.shiftr add 8 mod 256; add mod 256]))
    as Hcall.
  { intros b. unfold eth_ar_call2mac.
    replace ((15 <? ssid) || (ssid <? 0)) with false
      by (symmetry; apply orb_false_iff; split; apply Z.ltb_ge; lia).
    rewrite Hacc, Htop, !land_ff.
    replace (uint8 (Z.land add 0xff)) with (add mod 256)
      by (rewrite <- (Z.shiftr_0_r add) at 2; rewrite land_ff;
          now rewrite Z.shiftr_0_r).
    reflexivity. }
  eexists add, _, _, _, _, _, _.
  split; [exact Hacc|]. split; [exact Hadd|].
  split; [apply Hcall|].
  split; [exact Hsh|]. split; [exact Hssid|]. split; [exact Hb1|].
  split; [exact Hb0|]. do 5 (split; [reflexivity|]).
  assert (be_value [Z.shiftr add 32 mod 256; Z.shiftr add 24 mod 256;
                    Z.shiftr add 16 mod 256; Z.shiftr add 8 mod 256;
                    add mod 256] = add mod 2 ^ 40) as Hlow.
  { unfold be_value. cbn [fold_left].
    rewrite !Z.shiftr_div_pow2 by lia.
    change (2 ^ 32) with 4294967296. change (2 ^ 24) with 16777216.
    change (2 ^ 16) with 65536. change (2 ^ 8) with 256.
    change (2 ^ 40) with 1099511627776.
    Z.div_mod_to_equations. lia. }
  split; [exact Hlow|]. split.
  - unfold be_value in *. cbn [fold_left] in *. rewrite Hsh.
    rewrite Z.shiftr_div_pow2 by lia.
    change (2 ^ 40) with 1099511627776 in *.
    Z.div_mod_to_equations. lia.
  - rewrite Hcall, Hflip. reflexivity.
Qed.

(** C1 at "NOCALL", SSID 0, no multicast, on a zeroed buffer. *)
Lemma call2mac_layout_witness :
  length [0; 0; 0; 0; 0; 0] = 6%nat /\ valid_callsign "NOCALL" = true
  /\ 0 <= 0 <= 15
  /\ eth_ar_call2mac [0; 0; 0; 0; 0; 0] "NOCALL" 0 true
     = (0, [0xc3; 0x31; 0x90; 0x55; 0xef; 0xb3]).
Proof.
  split; [reflexivity|]. split; [reflexivity|]. split; [lia|].
  apply (call2mac_layout [0; 0; 0; 0; 0; 0] "NOCALL" 0 false);
    [reflexivity | reflexivity | lia].
Defined.

(** C1 as worded does not hold: the integer accumulated for "NOCALL" needs 42
    bits, not 40; the top two bits of byte 0 are its bits 41-40 and differ
    from its bits 39-38; bytes 1-5 carry 40 bits of it, not 32. *)
Lemma nocall_needs_42_bits :
  exists add m0 m1 m2 m3 m4 m5,
    accumulate "NOCALL" = Some add
    /\ eth_ar_call2mac [0; 0; 0; 0; 0; 0] "NOCALL" 0 false
       = (0, [m0; m1; m2; m3; m4; m5])
    /\ 2 ^ 40 <= add
    /\ Z.shiftr m0 6 <> Z.land (Z.shiftr add 38) 3
    /\ 2 ^ 32 <= be_value [m1; m2; m3; m4; m5]
    /\ be_value [m1; m2; m3; m4; m5] <> add mod 2 ^ 32.
Proof.
  exists 3511409831859, 0xc2, 0x31, 0x90, 0x55, 0xef, 0xb3.
  repeat split; vm_compute; congruence.
Qed.

(** *** Rejected inputs *)

Lemma char_code_range c : 0 <= char_code c < 256.
Proof.
  unfold char_code. pose proof (N_ascii_bounded c). lia.
Qed.

Lemma char_at_range s p : 0 <= char_at s p < 256.
Proof.
  unfold char_at. destruct (String.get p s); [apply char_code_range | lia].
Qed.

(** Below [strlen] there is no NUL. *)
Lemma char_at_strlen s p : (p < strlen s)%nat -> char_at s p <> 0.
Proof.
  revert p. induction s as [|c s IH]; intros p Hp; simpl in Hp; [lia|].
  destruct (Z.eqb_spec (char_code c) 0) as [|Hc]; [lia|].
  destruct p as [|p].
  - exact Hc.
  - unfold char_at. simpl. apply (IH p). lia.
Qed.

(** A byte that is neither NUL nor alphanumeric is not in the table, with or
    without upper-casing. *)
Lemma toupper_outside c :
  0 <= c < 256 -> c <> 0 -> alnum c = false -> in_alphabet (toupper c) = false.
Proof.
  intros Hc Hnz Hal.
  pose proof (range_cases 256
    (fun c => (c =? 0) || alnum c || negb (in_alphabet (toupper c)))
    ltac:(vm_compute; reflexivity) c Hc) as Hcase.
  cbv beta in Hcase. rewrite Hal in Hcase. apply Z.eqb_neq in Hnz. rewrite Hnz in Hcase.
  simpl in Hcase. now apply negb_true_iff in Hcase.
Qed.

(** The call fails, with [mac] as it was, as soon as the SSID is out of range
    or one of the eight scanned positions is outside the table. *)
Lemma call2mac_error mac callsign ssid multicast :
  (ssid < 0 \/ 15 < ssid)
  \/ (exists p, (p < 8)%nat /\ in_alphabet (scanned_char callsign p) = false) ->
  eth_ar_call2mac mac callsign ssid multicast = (-1, mac).
Proof.
  intros Hbad. unfold eth_ar_call2mac.
  destruct ((15 <? ssid) || (ssid <? 0)) eqn:Hok; [reflexivity|].
  destruct Hbad as [Hs|(p & Hp & Hout)].
  - exfalso. apply orb_false_iff in Hok. destruct Hok as [H1 H2].
    apply Z.ltb_ge in H1, H2. lia.
  - unfold accumulate.
    rewrite (call2mac_scan_invalid callsign 8 0 p Hp); [reflexivity|].
    now apply symbol_index_out.
Qed.

(** Conversely the scan gives up only at a position outside the table. *)
Lemma call2mac_scan_none callsign n add :
  call2mac_scan callsign n add = None ->
  exists p, (p < n)%nat /\ in_alphabet (scanned_char callsign p) = false.
Proof.
  revert add. induction n as [|n IH]; intros add Hnone; [discriminate|].
  cbn [call2mac_scan] in Hnone. unfold sizeof_alnum2code in Hnone.
  destruct (Z.eqb_spec (symbol_index (scanned_char callsign n)) 37) as [Heq|_].
  - exists n. split; [lia|].
    destruct (in_alphabet (scanned_char callsign n)) eqn:Hin; [|reflexivity].
    apply symbol_index_in in Hin. lia.
  - destruct (IH _ Hnone) as (p & Hp & Hout). exists p. split; [lia|exact Hout].
Qed.

(** C5, as the code has it: the call returns -1, its only error value, for
    every SSID outside [[0, 15]] (16 and -1 among them) and for every
    identifier with a character outside [[0-9A-Za-z]] among its first 8
    positions; [mac] is left as it was. *)
Theorem call2mac_rejects (mac : list Z) (callsign : string) (ssid : Z)
    (multicast : bool) :
  (ssid < 0 \/ 15 < ssid)
  \/ (exists p, (p < Nat.min (strlen callsign) 8)%nat
                /\ alnum (char_at callsign p) = false) ->
  eth_ar_call2mac mac callsign ssid multicast = (-1, mac).
Proof.
  intros [Hs|(p & Hp & Hal)]; apply call2mac_error; [now left|right].
  exists p. split; [lia|]. unfold scanned_char.
  destruct (Nat.leb_spec (strlen callsign) p) as [Hle|_]; [lia|].
  apply toupper_outside;
    [apply char_at_range | apply char_at_strlen; lia | exact Hal].
Qed.

(** C5 at SSID 16, at SSID -1 and at a callsign with a dash. *)
Lemma call2mac_rejects_witness :
  eth_ar_call2mac [1; 2; 3; 4; 5; 6] "NOCALL" 16 false = (-1, [1; 2; 3; 4; 5; 6])
  /\ eth_ar_call2mac [1; 2; 3; 4; 5; 6] "NOCALL" (-1) false
     = (-1, [1; 2; 3; 4; 5; 6])
  /\ eth_ar_call2mac [1; 2; 3; 4; 5; 6] "NO-CALL" 0 false
     = (-1, [1; 2; 3; 4; 5; 6]).
Proof.
  split; [|split].
  - apply call2mac_rejects. left. lia.
  - apply call2mac_rejects. left. lia.
  - apply call2mac_rejects. right. exists 2%nat. split; [simpl; lia|reflexivity].
Defined.

(** C5 as worded does not hold: a character outside [[0-9A-Za-z]] at position
    8 or later is never looked at, and the call succeeds. *)
Lemma call2mac_accepts_invalid_tail :
  (8 < strlen "ABCDEFGH!")%nat
  /\ char_at "ABCDEFGH!" 8 = 33 /\ alnum 33 = false
  /\ eth_ar_call2mac [0; 0; 0; 0; 0; 0] "ABCDEFGH!" 0 false
     = (0, [66; 129; 142; 241; 152; 28])
  /\ eth_ar_call2mac [0; 0; 0; 0; 0; 0] "ABCDEFGH!" 0 false
     = eth_ar_call2mac [0; 0; 0; 0; 0; 0] "ABCDEFGH" 0 false.
Proof. repeat split; vm_compute; lia. Qed.

(** C10: whenever the call returns an error the buffer [mac] is untouched.
    The call returns -1 exactly when the SSID is out of range or one of the
    eight scanned positions is outside the table, and in every such case the
    buffer afterwards is the buffer before. *)
Theorem call2mac_error_keeps_mac (mac : list Z) (callsign : string) (ssid : Z)
    (multicast : bool) :
  let r := eth_ar_call2mac mac callsign ssid multicast in
  (fst r = 0 \/ fst r = -1)
  /\ (fst r <> 0 -> snd r = mac)
  /\ (fst r <> 0 <->
      (ssid < 0 \/ 15 < ssid)
      \/ (exists p, (p < 8)%nat
                    /\ in_alphabet (scanned_char callsign p) = false)).
Proof.
  cbv zeta.
  assert ((ssid < 0 \/ 15 < ssid)
          \/ (exists p, (p < 8)%nat
                        /\ in_alphabet (scanned_char callsign p) = false)
          \/ fst (eth_ar_call2mac mac callsign ssid multicast) = 0) as Hcases.
  { unfold eth_ar_call2mac.
    destruct ((15 <? ssid) || (ssid <? 0)) eqn:Hs.
    - left. apply orb_true_iff in Hs. rewrite !Z.ltb_lt in Hs. lia.
    - unfold accumulate.
      destruct (call2mac_scan callsign 8 0) eqn:Hscan.
      + right. right. reflexivity.
      + right. left. eapply call2mac_scan_none, Hscan. }
  destruct Hcases as [Hs|[Hp|H0]].
  - rewrite call2mac_error by now left. simpl.
    split; [now right|]. split; [reflexivity|]. split; [now left|lia].
  - rewrite call2mac_error by now right. simpl.
    split; [now right|]. split; [reflexivity|]. split; [now right|lia].
  - split; [now left|]. split; [congruence|]. split; [congruence|].
    intros Hbad. rewrite (call2mac_error mac callsign ssid multicast Hbad) in H0.
    discriminate.
Qed.

(** C10 at SSID 16 and at a callsign with a dash. *)
Lemma call2mac_error_keeps_mac_witness :
  snd (eth_ar_call2mac [1; 2; 3; 4; 5; 6] "NOCALL" 16 true) = [1; 2; 3; 4; 5; 6]
  /\ snd (eth_ar_call2mac [1; 2; 3; 4; 5; 6] "NO-CALL" 3 true)
     = [1; 2; 3; 4; 5; 6].
Proof.
  split.
  - apply (call2mac_error_keeps_mac [1; 2; 3; 4; 5; 6] "NOCALL" 16 true).
    simpl. lia.
  - apply (call2mac_error_keeps_mac [1; 2; 3; 4; 5; 6] "NO-CALL" 3 true).
    simpl. lia.
Defined.

End EthArFacts.

(** ** The packet source *)

Section DataTxFacts.

Import DataTx.

Lemma my_datatx_counters st packet :
  fst (fst (my_datatx st packet)) = tick st.
Proof.
  unfold my_datatx.
  destruct (Z.rem (data_type st) 4 =? 1); [|destruct (Z.rem (data_type st) 4 =? 2)];
    try destruct (fill_pattern _ _ _); reflexivity.
Qed.

Lemma my_datatx_empty st packet :
  Z.rem (data_type st) 4 <> 1 -> Z.rem (data_type st) 4 <> 2 ->
  my_datatx st packet = (tick st, packet, 0).
Proof.
  intros H1 H2. unfold my_datatx.
  apply Z.eqb_neq in H1, H2. rewrite H1, H2. reflexivity.
Qed.

Lemma my_datatx_test_pattern st packet :
  Z.rem (data_type st) 4 = 1 ->
  length (mac (cb st)) = 6%nat -> (78 <= length packet)%nat ->
  exists packet',
    my_datatx st packet = (tick st, packet', 78)
    /\ length packet' = length packet
    /\ payload packet' 78 = test_pattern_frame (mac (cb st)).
Proof.
  intros Hrem Hmac Hlen. unfold my_datatx. rewrite Hrem.
  destruct st as [dt [n src]]. cbn [cb mac calls data_type] in *.
  destruct src as [|a0 [|a1 [|a2 [|a3 [|a4 [|a5 [|]]]]]]]; try discriminate.
  open_buffer packet Hlen 78.
  eexists. split; [reflexivity|]. split; reflexivity.
Qed.

Lemma my_datatx_position st packet :
  Z.rem (data_type st) 4 = 2 ->
  length (mac (cb st)) = 6%nat -> (22 <= length packet)%nat ->
  exists packet',
    my_datatx st packet = (tick st, packet', 22)
    /\ length packet' = length packet
    /\ payload packet' 22 = position_frame (mac (cb st)).
Proof.
  intros Hrem Hmac Hlen. unfold my_datatx. rewrite Hrem.
  destruct st as [dt [n src]]. cbn [cb mac calls data_type] in *.
  destruct src as [|a0 [|a1 [|a2 [|a3 [|a4 [|a5 [|]]]]]]]; try discriminate.
  open_buffer packet Hlen 22.
  eexists. split; [reflexivity|]. split; reflexivity.
Qed.

Lemma calls_from_S n st packet :
  calls_from (S n) st packet
  = (payload (snd (fst (my_datatx st packet))) (snd (my_datatx st packet))
       :: fst (calls_from n (fst (fst (my_datatx st packet)))
                          (snd (fst (my_datatx st packet)))),
     snd (calls_from n (fst (fst (my_datatx st packet)))
                       (snd (fst (my_datatx st packet))))).
Proof.
  cbn [calls_from]. destruct (my_datatx st packet) as [[st1 packet1] size].
  cbn [fst snd]. destruct (calls_from n st1 packet1). reflexivity.
Qed.

(** An [int] that holds the sum is left as the sum. *)
Lemma int32_small z : - 2 ^ 31 <= z < 2 ^ 31 -> int32 z = z.
Proof. intros Hz. unfold int32. rewrite Z.mod_small by lia. lia. Qed.


Lemma tick_data_type st :
  - 2 ^ 31 <= data_type st -> data_type st + 1 < 2 ^ 31 ->
  data_type (tick st) = data_type st + 1.
Proof. intros Hlo Hhi. cbn [tick data_type]. apply int32_small. lia. Qed.

(** The counters after [n] calls, each as long as it can hold the sum. *)
Lemma calls_from_counters n :
  forall st packet,
  (- 2 ^ 31 <= data_type st -> data_type st + Z.of_nat n < 2 ^ 31 ->
   data_type (snd (calls_from n st packet)) = data_type st + Z.of_nat n)
  /\ (- 2 ^ 31 <= calls (cb st) -> calls (cb st) + Z.of_nat n < 2 ^ 31 ->
      calls (cb (snd (calls_from n st packet))) = calls (cb st) + Z.of_nat n)
  /\ mac (cb (snd (calls_from n st packet))) = mac (cb st).
Proof.
  induction n as [|n IH]; intros st packet.
  - simpl. repeat split; lia.
  - rewrite calls_from_S. cbn [snd]. rewrite my_datatx_counters.
    destruct (IH (tick st) (snd (fst (my_datatx st packet)))) as (Hd & Hc & Hm).
    cbn [tick data_type calls cb mac] in Hd, Hc, Hm.
    split; [|split; [|exact Hm]]; intros Hlo Hhi.
    + rewrite int32_small in Hd by lia. rewrite Hd; lia.
    + rewrite int32_small in Hc by lia. rewrite Hc; lia.
Qed.

(** Four calls from a counter that is a multiple of four: one turn of the
    cycle, and a buffer of the same length for the next turn. *)
Lemma calls_from_turn n st packet :
  0 <= data_type st -> data_type st + 4 <= 2 ^ 31 ->
  Z.rem (data_type st) 4 = 0 ->
  length (mac (cb st)) = 6%nat -> (78 <= length packet)%nat ->
  exists st' packet',
    calls_from (4 + n) st packet
    = (cycle (mac (cb st)) ++ fst (calls_from n st' packet'),
       snd (calls_from n st' packet'))
    /\ st' = tick (tick (tick (tick st)))
    /\ length packet' = length packet.
Proof.
  intros Hpos Hmax Hrem Hmac Hlen.
  assert (data_type (tick st) = data_type st + 1) as D1
    by (apply tick_data_type; lia).
  assert (data_type (tick (tick st)) = data_type st + 2) as D2
    by (rewrite tick_data_type; rewrite D1; lia).
  assert (data_type (tick (tick (tick st))) = data_type st + 3) as D3
    by (rewrite tick_data_type; rewrite D2; lia).
  pose proof (my_datatx_empty st packet
    ltac:(lia) ltac:(lia)) as H0.
  destruct (my_datatx_test_pattern (tick st) packet) as (p1 & H1 & Hl1 & Hp1);
    [rewrite D1; Z.quot_rem_to_equations; lia | exact Hmac | exact Hlen |].
  destruct (my_datatx_position (tick (tick st)) p1) as (p2 & H2 & Hl2 & Hp2);
    [rewrite D2; Z.quot_rem_to_equations; lia | exact Hmac | lia |].
  pose proof (my_datatx_empty (tick (tick (tick st))) p2
    ltac:(rewrite D3; Z.quot_rem_to_equations; lia)
    ltac:(rewrite D3; Z.quot_rem_to_equations; lia)) as H3.
  exists (tick (tick (tick (tick st)))), p2.
  split; [|split; [reflexivity|lia]].
  change (4 + n)%nat with (S (S (S (S n)))).
  rewrite calls_from_S, H0. cbn [fst snd].
  rewrite calls_from_S, H1. cbn [fst snd].
  rewrite calls_from_S, H2. cbn [fst snd].
  rewrite calls_from_S, H3. cbn [fst snd].
  rewrite Hp1, Hp2. reflexivity.
Qed.

(** Any number of turns that the counter can count. *)
Lemma calls_from_turns k :
  forall st packet,
  0 <= data_type st -> data_type st + 4 * Z.of_nat k <= 2 ^ 31 ->
  Z.rem (data_type st) 4 = 0 ->
  length (mac (cb st)) = 6%nat -> (78 <= length packet)%nat ->
  fst (calls_from (4 * k) st packet)
  = concat (replicate k (cycle (mac (cb st)))).
Proof.
  induction k as [|k IH]; intros st packet Hpos Hmax Hrem Hmac Hlen.
  - reflexivity.
  - replace (4 * S k)%nat with (4 + 4 * k)%nat by lia.
    destruct (calls_from_turn (4 * k) st packet Hpos ltac:(lia) Hrem Hmac Hlen)
      as (st' & p' & Hcalls & Hst & Hlen').
    rewrite Hcalls. cbn [fst replicate concat]. f_equal.
    destruct k as [|k']; [reflexivity|].
    assert (data_type st' = data_type st + 4) as D4.
    { assert (data_type (tick st) = data_type st + 1) as D1
        by (apply tick_data_type; lia).
      assert (data_type (tick (tick st)) = data_type st + 2) as D2
        by (rewrite tick_data_type; rewrite D1; lia).
      assert (data_type (tick (tick (tick st))) = data_type st + 3) as D3
        by (rewrite tick_data_type; rewrite D2; lia).
      subst st'. rewrite tick_data_type; rewrite D3; lia. }
    assert (mac (cb st') = mac (cb st)) as Hm by (subst st'; reflexivity).
    rewrite <- Hm. apply IH; [lia | lia | | congruence | lia].
    rewrite D4. Z.quot_rem_to_equations. lia.
Qed.

(** C3: from a fresh counter, four consecutive calls yield an empty payload,
    the 78-byte test-pattern frame (broadcast destination, our address, type
    01 01, bytes 0..63), the 22-byte position report (broadcast destination,
    our address, type 73 70, the fixed 8-byte position element) and an empty
    payload again; the next four calls yield the same four payloads, and so
    does every later group of four for as long as the [int] counter counts
    (the first [2 ^ 31] calls); each call adds exactly one to [data_type]
    and to [calls], whichever branch it takes and whatever the buffer of
    at least 78 bytes holds, unless the counter already holds [INT_MAX]. *)
Theorem datatx_cycle (c : my_callback_state) (packet : list Z) :
  length (mac c) = 6%nat -> (78 <= length packet)%nat ->
  fst (calls_from 8 (fresh c) packet)
  = [[]; test_pattern_frame (mac c); position_frame (mac c); [];
     []; test_pattern_frame (mac c); position_frame (mac c); []]
  /\ test_pattern_frame (mac c)
     = [0xff; 0xff; 0xff; 0xff; 0xff; 0xff] ++ mac c ++ [0x01; 0x01]
       ++ map Z.of_nat (seq 0 64)
  /\ length (test_pattern_frame (mac c)) = 78%nat
  /\ position_frame (mac c)
     = [0xff; 0xff; 0xff; 0xff; 0xff; 0xff] ++ mac c ++ [0x73; 0x70]
       ++ [0x07; 0x3d; 0xd0; 0x37; 0xd9; 0x3e; 0x70; 0x85]
  /\ length (position_frame (mac c)) = 22%nat
  /\ (forall k, 4 * Z.of_nat k <= 2 ^ 31 ->
                fst (calls_from (4 * k) (fresh c) packet)
                = concat (replicate k (cycle (mac c))))
  /\ (forall n, Z.of_nat n < 2 ^ 31 ->
                data_type (snd (calls_from n (fresh c) packet)) = Z.of_nat n
                /\ (- 2 ^ 31 <= calls c -> calls c + Z.of_nat n < 2 ^ 31 ->
                    calls (cb (snd (calls_from n (fresh c) packet)))
                    = calls c + Z.of_nat n))
  /\ (forall st buf,
        (78 <= length buf)%nat ->
        (- 2 ^ 31 <= data_type st < 2 ^ 31 - 1 ->
         data_type (fst (fst (my_datatx st buf))) = data_type st + 1)
        /\ (- 2 ^ 31 <= calls (cb st) < 2 ^ 31 - 1 ->
            calls (cb (fst (fst (my_datatx st buf)))) = calls (cb st) + 1)).
Proof.
  intros Hmac Hlen.
  assert (forall k, 4 * Z.of_nat k <= 2 ^ 31 ->
                    fst (calls_from (4 * k) (fresh c) packet)
                    = concat (replicate k (cycle (mac c)))) as Hturns
    by (intros k Hk; apply (calls_from_turns k (fresh c) packet);
        [cbn; lia | cbn [fresh data_type]; lia | reflexivity | exact Hmac
         | exact Hlen]).
  split; [apply (Hturns 2%nat); lia|].
  split; [reflexivity|].
  split; [unfold test_pattern_frame; rewrite !length_app, Hmac; reflexivity|].
  split; [reflexivity|].
  split; [unfold position_frame; rewrite !length_app, Hmac; reflexivity|].
  split; [exact Hturns|]. split.
  - intros n Hn.
    destruct (calls_from_counters n (fresh c) packet) as (Hd & Hc & _).
    cbn [fresh data_type calls cb] in Hd, Hc.
    split; [rewrite Hd; lia | exact Hc].
  - intros st buf _. rewrite my_datatx_counters. cbn [tick data_type calls cb].
    split; intros Hrange; apply int32_small; lia.
Qed.

(** C3 on a zeroed 128-byte buffer with the address [02 00 00 00 00 01]. *)
Lemma datatx_cycle_witness :
  length [2; 0; 0; 0; 0; 1] = 6%nat /\ (78 <= length (replicate 128 0))%nat
  /\ fst (calls_from 8 (fresh {| calls := 0; mac := [2; 0; 0; 0; 0; 1] |})
                     (replicate 128 0))
     = [[]; test_pattern_frame [2; 0; 0; 0; 0; 1];
        position_frame [2; 0; 0; 0; 0; 1]; [];
        []; test_pattern_frame [2; 0; 0; 0; 0; 1];
        position_frame [2; 0; 0; 0; 0; 1]; []].
Proof.
  split; [reflexivity|]. split; [simpl; lia|].
  apply (datatx_cycle {| calls := 0; mac := [2; 0; 0; 0; 0; 1] |}
                      (replicate 128 0)); [reflexivity | simpl; lia].
Defined.

End DataTxFacts.

(** ** Comparison of binary32 values *)

Section Float32Facts.

Import Float32.

Lemma digits2_pos_bounds m :
  2 ^ (Z.pos (digits2_pos m) - 1) <= Z.pos m < 2 ^ Z.pos (digits2_pos m).
Proof.
  induction m as [m IH|m IH|]; cbn [digits2_pos].
  - rewrite Pos2Z.inj_succ.
    replace (Z.succ (Z.pos (digits2_pos m)) - 1)
      with (Z.succ (Z.pos (digits2_pos m) - 1)) by lia.
    rewrite !Z.pow_succ_r by lia. lia.
  - rewrite Pos2Z.inj_succ.
    replace (Z.succ (Z.pos (digits2_pos m)) - 1)
      with (Z.succ (Z.pos (digits2_pos m) - 1)) by lia.
    rewrite !Z.pow_succ_r by lia. lia.
  - simpl. lia.
Qed.

(** What validity says of a finite value: the exponent is at least [emin];
    the mantissa has at most 24 bits, and exactly 24 above [emin]. *)
Lemma valid_finite s m e :
  valid (S754_finite s m e) = true ->
  -149 <= e
  /\ Z.pos m < 2 ^ 24
  /\ (-149 < e -> 2 ^ 23 <= Z.pos m).
Proof.
  unfold valid, valid_binary, bounded, canonical_mantissa, fexp.
  change (emin prec emax) with (-149). unfold prec.
  intros Hv. apply andb_true_iff in Hv. destruct Hv as [Hc _].
  apply Z.eqb_eq in Hc.
  pose proof (digits2_pos_bounds m) as [Hlo Hhi].
  split; [lia|]. split.
  - eapply Z.lt_le_trans; [exact Hhi|].
    apply Z.pow_le_mono_r; lia.
  - intros He.
    replace (Z.pos (digits2_pos m)) with 24 in Hlo by lia. exact Hlo.
Qed.

(** On valid positive finite values the comparison of the format is the
    comparison of the exact values. *)
Lemma compare_finite_pos m1 e1 m2 e2 :
  valid (S754_finite false m1 e1) = true ->
  valid (S754_finite false m2 e2) = true ->
  match Z.compare e1 e2 with
  | Lt => Lt
  | Gt => Gt
  | Eq => Pos.compare_cont Eq m1 m2
  end
  = (Z.pos m1 * 2 ^ (e1 - emin prec emax) ?= Z.pos m2 * 2 ^ (e2 - emin prec emax)).
Proof.
  intros Hv1 Hv2. change (emin prec emax) with (-149).
  destruct (valid_finite _ _ _ Hv1) as (He1 & Hm1 & Hn1).
  destruct (valid_finite _ _ _ Hv2) as (He2 & Hm2 & Hn2).
  change (2 ^ 24) with 16777216 in *. change (2 ^ 23) with 8388608 in *.
  assert (forall a b ma mb, -149 <= a -> a < b ->
            Z.pos ma < 16777216 -> 8388608 <= Z.pos mb ->
            Z.pos ma * 2 ^ (a - -149) < Z.pos mb * 2 ^ (b - -149)) as Hlt.
  { intros a b ma mb Ha Hab Hma Hmb.
    replace (b - -149) with (Z.succ (b - a - 1) + (a - -149)) by lia.
    rewrite Z.pow_add_r, Z.pow_succ_r by lia.
    assert (0 < 2 ^ (a - -149)) as HP by (apply Z.pow_pos_nonneg; lia).
    assert (0 < 2 ^ (b - a - 1)) as HQ by (apply Z.pow_pos_nonneg; lia).
    generalize dependent (2 ^ (a - -149)). intros P HP.
    generalize dependent (2 ^ (b - a - 1)). intros Q HQ.
    apply Z.lt_le_trans with (16777216 * P); [nia|].
    apply Z.le_trans with (Z.pos mb * (2 * 1 * P)); [nia|].
    apply Z.mul_le_mono_nonneg_l; [lia|nia]. }
  destruct (Z.compare_spec e1 e2) as [Heq|Hl|Hg].
  - subst e2.
    rewrite <- Zmult_compare_compat_r
      by (apply Z.lt_gt, Z.pow_pos_nonneg; lia).
    reflexivity.
  - symmetry. apply Z.compare_lt_iff. apply Hlt; [lia|lia|lia|apply Hn2; lia].
  - symmetry. apply Z.compare_gt_iff. apply Hlt; [lia|lia|lia|apply Hn1; lia].
Qed.

(** The comparison of two valid values that are zero or finite is the
    comparison of their exact values. *)
Lemma compare_units x y u v :
  valid x = true -> valid y = true ->
  units x = Some u -> units y = Some v ->
  SFcompare x y = Some (u ?= v).
Proof.
  intros Hx Hy Hu Hv.
  destruct x as [sx|sx| |sx mx ex]; try discriminate;
    destruct y as [sy|sy| |sy my ey]; try discriminate;
    cbn [units] in Hu, Hv; injection Hu as <-; injection Hv as <-.
  - reflexivity.
  - assert (0 < Z.pos my * 2 ^ (ey - emin prec emax))
      by (apply Z.mul_pos_pos; [lia | apply Z.pow_pos_nonneg; [lia|];
          destruct (valid_finite _ _ _ Hy); change (emin prec emax) with (-149); lia]).
    cbn [SFcompare]. f_equal. symmetry.
    destruct sy; cbn [cond_Zopp];
      [apply Z.compare_gt_iff | apply Z.compare_lt_iff]; lia.
  - assert (0 < Z.pos mx * 2 ^ (ex - emin prec emax))
      by (apply Z.mul_pos_pos; [lia | apply Z.pow_pos_nonneg; [lia|];
          destruct (valid_finite _ _ _ Hx); change (emin prec emax) with (-149); lia]).
    cbn [SFcompare]. f_equal. symmetry.
    destruct sx; cbn [cond_Zopp];
      [apply Z.compare_lt_iff | apply Z.compare_gt_iff]; lia.
  - assert (0 < Z.pos mx * 2 ^ (ex - emin prec emax))
      by (apply Z.mul_pos_pos; [lia | apply Z.pow_pos_nonneg; [lia|];
          destruct (valid_finite _ _ _ Hx); change (emin prec emax) with (-149); lia]).
    assert (0 < Z.pos my * 2 ^ (ey - emin prec emax))
      by (apply Z.mul_pos_pos; [lia | apply Z.pow_pos_nonneg; [lia|];
          destruct (valid_finite _ _ _ Hy); change (emin prec emax) with (-149); lia]).
    cbn [SFcompare]. f_equal.
    destruct sx, sy; cbn [cond_Zopp].
    + rewrite Z.compare_opp.
      rewrite (Z.compare_antisym (Z.pos mx * 2 ^ (ex - emin prec emax))).
      rewrite <- (compare_finite_pos mx ex my ey Hx Hy).
      destruct (ex ?= ey); reflexivity.
    + symmetry. apply Z.compare_lt_iff. lia.
    + symmetry. apply Z.compare_gt_iff. lia.
    + apply (compare_finite_pos mx ex my ey Hx Hy).
Qed.

Lemma ltb_units x y u v :
  valid x = true -> valid y = true ->
  units x = Some u -> units y = Some v ->
  (ltb x y = true <-> u < v).
Proof.
  intros Hx Hy Hu Hv. unfold ltb, SFltb.
  rewrite (compare_units x y u v Hx Hy Hu Hv).
  destruct (Z.compare_spec u v); split; intros; try lia; try discriminate;
    reflexivity.
Qed.

(** The difference of two floats is itself rounded: [15 - 2 ^ -30] is 15
    again in binary32, and is then not below a threshold of 15.  A score
    "below the threshold by epsilon" is therefore read on exact values. *)
Example sub_rounds_back :
  valid (S754_finite false 8388608 (-53)) = true
  /\ units (S754_finite false 8388608 (-53)) = Some (2 ^ 119)
  /\ sub (of_int 15) (S754_finite false 8388608 (-53)) = of_int 15
  /\ ltb (sub (of_int 15) (S754_finite false 8388608 (-53))) (of_int 15) = false.
Proof. repeat split; vm_compute; reflexivity. Qed.

End Float32Facts.

(** ** The driver *)

Section DriverFacts.

Import Driver.

Context {api : Api}.

Lemma compare_refl x : SFcompare x x = Some Eq \/ SFcompare x x = None.
Proof.
  destruct x as [s|s| |s m e]; cbn [SFcompare].
  - now left.
  - left. destruct s; reflexivity.
  - now right.
  - left. rewrite Z.compare_refl.
    change (Pos.compare_cont Eq m m) with (Pos.compare m m).
    rewrite Pos.compare_refl. destruct s; reflexivity.
Qed.

Lemma decide_data score threshold :
  decide score threshold = DATA <-> Float32.ltb score threshold = true.
Proof.
  unfold decide. destruct (Float32.ltb score threshold); split;
    intros; congruence.
Qed.

Lemma decide_voice score threshold :
  decide score threshold = VOICE <-> Float32.ltb score threshold = false.
Proof.
  unfold decide. destruct (Float32.ltb score threshold); split;
    intros; congruence.
Qed.

(** What a block does, branch by branch. *)
Lemma tx_block_cases (s : session) d s' :
  tx_block s = Some (d, s') ->
  exists energy,
    block_energy s = Some energy
    /\ d = decide energy (data_threshold s)
    /\ (d = DATA ->
        exists c,
          s' = after_tx s (fst (fst (freedv_datatx (fdv s) DataTx.my_datatx (cbs s))))
                 c (snd (fst (freedv_datatx (fdv s) DataTx.my_datatx (cbs s))))
                 (snd (freedv_datatx (fdv s) DataTx.my_datatx (cbs s))))
    /\ (d = VOICE -> use_codectx s = 0 ->
        s' = after_tx s (fst (freedv_tx (fdv s) (speech_in s))) (c2 s) (cbs s)
               (snd (freedv_tx (fdv s) (speech_in s))))
    /\ (d = VOICE -> use_codectx s <> 0 ->
        exists c rawdata,
          s' = after_tx s (fst (freedv_rawdatatx (fdv s) rawdata)) c (cbs s)
                 (snd (freedv_rawdatatx (fdv s) rawdata))).
Proof.
  unfold tx_block, block_energy.
  destruct (Z.eqb_spec (use_codectx s) 0) as [Hu|Hu].
  - intros Htx. eexists. split; [reflexivity|].
    destruct (decide _ _) eqn:Hd.
    + destruct (freedv_tx (fdv s) (speech_in s)) as [f ws] eqn:Hf.
      injection Htx as <- <-. split; [reflexivity|].
      split; [discriminate|]. split; [reflexivity|]. intros _ Hne. contradiction.
    + destruct (freedv_datatx (fdv s) DataTx.my_datatx (cbs s))
        as [[f cb] ws] eqn:Hf.
      injection Htx as <- <-. split; [reflexivity|].
      split; [intros _; eexists; reflexivity|]. split; discriminate.
  - destruct (codectx_encode s) as [[[c encoded] energy]|]; [|discriminate].
    intros Htx. exists energy. split; [reflexivity|].
    destruct (decide _ _) eqn:Hd.
    + destruct (freedv_rawdatatx (fdv s) _) as [f ws] eqn:Hf.
      injection Htx as <- <-. split; [reflexivity|].
      split; [discriminate|]. split; [intros _ H0; contradiction|].
      intros _ _. eexists _, _. rewrite Hf. reflexivity.
    + destruct (freedv_datatx (fdv s) DataTx.my_datatx (cbs s))
        as [[f cb] ws] eqn:Hf.
      injection Htx as <- <-. split; [reflexivity|].
      split; [intros _; eexists; reflexivity|]. split; discriminate.
Qed.

(** The [--codectx] branch gets its score as soon as there is a codec and
    the codec frame has bits. *)
Lemma codectx_encode_defined (s : session) :
  c2 s <> None -> freedv_get_bits_per_codec_frame (fdv s) <> 0 ->
  exists c encoded energy, codectx_encode s = Some (c, encoded, energy).
Proof.
  intros Hc2 Hbits. unfold codectx_encode.
  destruct (c2 s) as [c|]; [|contradiction].
  destruct (Z.eqb_spec (freedv_get_bits_per_codec_frame (fdv s)) 0) as [Hz|_];
    [contradiction|].
  destruct (encode_frames _ _ _ _ _ _ _ _ _) as [[c' encoded] energy].
  eexists _, _, _. reflexivity.
Qed.

(** The body of the loop is defined exactly on the sessions that cannot trap
    in the [--codectx] branch. *)
Lemma tx_block_defined (s : session) :
  tx_block s <> None
  <-> (use_codectx s = 0
       \/ (c2 s <> None /\ freedv_get_bits_per_codec_frame (fdv s) <> 0)).
Proof.
  unfold tx_block. destruct (Z.eqb_spec (use_codectx s) 0) as [Hu|Hu].
  - split; [now left|]. intros _.
    destruct (decide _ _);
      [destruct (freedv_tx _ _) | destruct (freedv_datatx _ _ _) as [[? ?] ?]];
      discriminate.
  - split.
    + intros Htx. right. unfold codectx_encode in Htx.
      destruct (c2 s) as [c|]; [|contradiction].
      split; [discriminate|]. intros Hz. rewrite Hz in Htx. now apply Htx.
    + intros [H0|[Hc2 Hbits]]; [contradiction|].
      destruct (codectx_encode_defined s Hc2 Hbits) as (c & encoded & energy & ->).
      destruct (decide _ _);
        [destruct (freedv_rawdatatx _ _) | destruct (freedv_datatx _ _ _) as [[? ?] ?]];
        discriminate.
Qed.

(** What the body of the loop does with a block: it computes the score of
    its branch, compares it with the threshold, and fills [mod_out] by the
    call the comparison selects. *)
Lemma tx_block_rule (s : session) :
  use_codectx s = 0
  \/ (c2 s <> None /\ freedv_get_bits_per_codec_frame (fdv s) <> 0) ->
  exists energy s',
    block_energy s = Some energy
    /\ tx_block s = Some (decide energy (data_threshold s), s')
    /\ (use_codectx s = 0 ->
        energy = samples_get_energy (speech_in s) (n_speech_samples s))
    /\ (use_codectx s <> 0 ->
        exists c encoded,
          codectx_encode s = Some (c, encoded, energy)
          /\ (decide energy (data_threshold s) = VOICE ->
              mod_out s'
              = store (mod_out s)
                  (snd (freedv_rawdatatx (fdv s)
                          (store
                             (VLA_CALLOC
                                (Z.quot (freedv_get_bits_per_modem_frame (fdv s) + 7) 8))
                             (freedv_rawdata_from_codec_frames (fdv s) encoded))))))
    /\ (decide energy (data_threshold s) = DATA ->
        mod_out s'
        = store (mod_out s) (snd (freedv_datatx (fdv s) DataTx.my_datatx (cbs s))))
    /\ (decide energy (data_threshold s) = VOICE -> use_codectx s = 0 ->
        mod_out s' = store (mod_out s) (snd (freedv_tx (fdv s) (speech_in s)))).
Proof.
  intros Hpre. unfold tx_block, block_energy.
  destruct (Z.eqb_spec (use_codectx s) 0) as [Hu|Hu].
  - exists (samples_get_energy (speech_in s) (n_speech_samples s)).
    destruct (decide _ _) eqn:Hd.
    + destruct (freedv_tx (fdv s) (speech_in s)) as [f ws] eqn:Hf.
      eexists. split; [reflexivity|]. split; [reflexivity|].
      split; [reflexivity|]. split; [contradiction|].
      split; [discriminate|]. intros _ _. reflexivity.
    + destruct (freedv_datatx (fdv s) DataTx.my_datatx (cbs s))
        as [[f cb] ws] eqn:Hf.
      eexists. split; [reflexivity|]. split; [reflexivity|].
      split; [reflexivity|]. split; [contradiction|].
      split; [intros _; reflexivity | discriminate].
  - destruct Hpre as [H0|[Hc2 Hbits]]; [contradiction|].
    destruct (codectx_encode_defined s Hc2 Hbits) as (c & encoded & energy & ->).
    exists energy. destruct (decide _ _) eqn:Hd.
    + destruct (freedv_rawdatatx (fdv s) _) as [f ws] eqn:Hf.
      eexists. split; [reflexivity|]. split; [reflexivity|].
      split; [intros H0; contradiction|].
      split; [intros _; exists c, encoded; split; [reflexivity|];
              intros _; cbn [after_tx mod_out]; rewrite Hf; reflexivity|].
      split; [discriminate | intros _ H0; contradiction].
    + destruct (freedv_datatx (fdv s) DataTx.my_datatx (cbs s))
        as [[f cb] ws] eqn:Hf.
      eexists. split; [reflexivity|]. split; [reflexivity|].
      split; [intros H0; contradiction|].
      split; [intros _; exists c, encoded; split; [reflexivity | discriminate]|].
      split; [intros _; reflexivity | discriminate].
Qed.

(** C4: a block carries DATA exactly when its energy score is strictly below
    the threshold (the C comparison of two [float]s) and VOICE otherwise; a
    score equal to the threshold gives VOICE; on values of the format the
    comparison is that of the exact values, so a score of threshold minus
    any positive epsilon gives DATA; and both branches of the main loop, the
    one of the library and the one of [--codectx], apply this same rule to
    the score they compute: the body of the loop is defined on every session
    whose [--codectx] branch cannot trap (and on no other), and there it
    transmits the kind of frame the rule gives for the score of its branch,
    by [freedv_datatx] for DATA and by [freedv_tx] or [freedv_rawdatatx]
    for VOICE. *)
Theorem frame_decision_rule :
  (forall score threshold,
      (decide score threshold = DATA <-> Float32.ltb score threshold = true)
      /\ (decide score threshold = VOICE <-> Float32.ltb score threshold = false)
      /\ (Float32.eqb score threshold = true -> decide score threshold = VOICE)
      /\ decide threshold threshold = VOICE)
  /\ (forall score threshold u v,
        Float32.valid score = true -> Float32.valid threshold = true ->
        Float32.units score = Some u -> Float32.units threshold = Some v ->
        (decide score threshold = DATA <-> u < v)
        /\ (decide score threshold = VOICE <-> v <= u)
        /\ (forall eps, 0 < eps -> u = v - eps -> decide score threshold = DATA))
  /\ (forall s : session,
        tx_block s <> None
        <-> (use_codectx s = 0
             \/ (c2 s <> None /\ freedv_get_bits_per_codec_frame (fdv s) <> 0)))
  /\ (forall s : session,
        use_codectx s = 0
        \/ (c2 s <> None /\ freedv_get_bits_per_codec_frame (fdv s) <> 0) ->
        exists energy s',
          block_energy s = Some energy
          /\ tx_block s = Some (decide energy (data_threshold s), s')
          /\ (use_codectx s = 0 ->
              energy = samples_get_energy (speech_in s) (n_speech_samples s))
          /\ (use_codectx s <> 0 ->
              exists c encoded,
                codectx_encode s = Some (c, encoded, energy)
                /\ (decide energy (data_threshold s) = VOICE ->
                    mod_out s'
                    = store (mod_out s)
                        (snd (freedv_rawdatatx (fdv s)
                                (store
                                   (VLA_CALLOC
                                      (Z.quot
                                         (freedv_get_bits_per_modem_frame (fdv s) + 7)
                                         8))
                                   (freedv_rawdata_from_codec_frames (fdv s)
                                      encoded))))))
          /\ (decide energy (data_threshold s) = DATA ->
              mod_out s'
              = store (mod_out s)
                  (snd (freedv_datatx (fdv s) DataTx.my_datatx (cbs s))))
          /\ (decide energy (data_threshold s) = VOICE -> use_codectx s = 0 ->
              mod_out s'
              = store (mod_out s) (snd (freedv_tx (fdv s) (speech_in s)))))
  /\ (forall (s s' : session) d,
        tx_block s = Some (d, s') ->
        exists energy,
          block_energy s = Some energy /\ d = decide energy (data_threshold s)).
Proof.
  split; [|split; [|split; [|split]]].
  - intros score threshold.
    split; [apply decide_data|]. split; [apply decide_voice|]. split.
    + intros Heq. apply decide_voice.
      unfold Float32.eqb, SFeqb in Heq. unfold Float32.ltb, SFltb.
      destruct (SFcompare score threshold) as [[| |]|]; congruence.
    + apply decide_voice. unfold Float32.ltb, SFltb.
      destruct (compare_refl threshold) as [-> | ->]; reflexivity.
  - intros score threshold u v Hs Ht Hu Hv.
    pose proof (ltb_units score threshold u v Hs Ht Hu Hv) as Hlt.
    split; [|split].
    + rewrite decide_data. exact Hlt.
    + rewrite decide_voice.
      destruct (Float32.ltb score threshold) eqn:Hl.
      * assert (u < v) by (apply Hlt; reflexivity). split; [discriminate|lia].
      * assert (~ u < v) by (intros H; apply Hlt in H; discriminate).
        split; [lia|reflexivity].
    + intros eps Heps Hueq. apply decide_data, Hlt. lia.
  - exact tx_block_defined.
  - exact tx_block_rule.
  - intros s s' d Htx.
    destruct (tx_block_cases s d s' Htx) as (energy & He & Hd & _).
    exists energy. now split.
Qed.

(** *** Counting blocks *)

Lemma store_length buf ws : length (store buf ws) = length buf.
Proof. apply length_inserts. Qed.

(** A ready session transmits its block, and the next block finds the
    session as ready as before. *)
Lemma tx_block_total (s : session) :
  codectx_ready s ->
  exists d s',
    tx_block s = Some (d, s')
    /\ n_speech_samples s' = n_speech_samples s
    /\ n_nom_modem_samples s' = n_nom_modem_samples s
    /\ length (mod_out s') = length (mod_out s)
    /\ codectx_ready s'.
Proof.
  intros Hready. unfold tx_block.
  destruct (Z.eqb_spec (use_codectx s) 0) as [Hu|Hu].
  - destruct (decide _ _).
    + destruct (freedv_tx (fdv s) (speech_in s)) as [f ws].
      eexists _, _. split; [reflexivity|]. cbn.
      rewrite store_length. repeat split. now left.
    + destruct (freedv_datatx (fdv s) DataTx.my_datatx (cbs s)) as [[f cb] ws].
      eexists _, _. split; [reflexivity|]. cbn.
      rewrite store_length. repeat split. now left.
  - destruct Hready as [H0|[Hc2 Hbits]]; [contradiction|].
    unfold codectx_encode.
    destruct (c2 s) as [c|]; [|contradiction].
    destruct (Z.eqb_spec (freedv_get_bits_per_codec_frame (fdv s)) 0) as [Hz|_];
      [now apply Hbits in Hz|].
    destruct (encode_frames _ _ _ _ _ _ _ _ _) as [[c' encoded] energy].
    destruct (decide _ _).
    + destruct (freedv_rawdatatx (fdv s) _) as [f ws].
      eexists _, _. split; [reflexivity|]. cbn.
      rewrite store_length. repeat split. right. split; [discriminate|exact Hbits].
    + destruct (freedv_datatx (fdv s) DataTx.my_datatx (cbs s)) as [[f cb] ws].
      eexists _, _. split; [reflexivity|]. cbn.
      rewrite store_length. repeat split. right. split; [discriminate|exact Hbits].
Qed.

(** The loop on a stream of [k] whole blocks and [r] more samples, from any
    list [written] of earlier blocks. *)
Lemma main_loop_run (fuel : nat) :
  forall (k : nat) (s : session) (fin : list Z) (written : list (list Z)) (r : Z),
  0 < n_speech_samples s -> 0 <= r < n_speech_samples s ->
  Z.of_nat (length fin) = Z.of_nat k * n_speech_samples s + r ->
  Z.of_nat (length (mod_out s)) = n_nom_modem_samples s ->
  codectx_ready s ->
  ((fuel <= k)%nat ->
   exists s' w,
     main_loop fuel s fin written = (OutOfFuel, s', written ++ w)
     /\ length w = fuel)
  /\ ((k < fuel)%nat ->
      exists s' w,
        main_loop fuel s fin written = (EndOfStream, s', written ++ w)
        /\ length w = k
        /\ Forall (fun b => Z.of_nat (length b) = n_nom_modem_samples s) w).
Proof.
  induction fuel as [|fuel IH]; intros k s fin written r Hn Hr Hlen Hout Hready.
  - split; [|lia]. intros _. exists s, []. rewrite app_nil_r. now split.
  - cbn [main_loop]. unfold fread.
    set (n := Z.to_nat (n_speech_samples s)) in *.
    set (s1 := set_speech_in s (store (speech_in s) (take n fin))).
    change (n_speech_samples s1) with (n_speech_samples s).
    destruct k as [|k].
    + (* the first read is short *)
      assert (length (take n fin) = length fin) as Htake
        by (apply length_take_ge; lia).
      destruct (Z.eqb_spec (Z.of_nat (length (take n fin))) (n_speech_samples s))
        as [Heq|_]; [lia|].
      split; [lia|]. intros _. exists s1, []. rewrite app_nil_r.
      repeat split. constructor.
    + (* a whole block is read *)
      assert (length (take n fin) = n) as Htake
        by (apply length_take_le; nia).
      destruct (Z.eqb_spec (Z.of_nat (length (take n fin))) (n_speech_samples s))
        as [_|Hne]; [|lia].
      destruct (tx_block_total s1) as (d & s2 & Htx & Hn2 & Hm2 & Hl2 & Hr2);
        [exact Hready|].
      rewrite Htx.
      change (n_speech_samples s1) with (n_speech_samples s) in Hn2.
      change (n_nom_modem_samples s1) with (n_nom_modem_samples s) in Hm2.
      change (mod_out s1) with (mod_out s) in Hl2.
      set (blk := take (Z.to_nat (n_nom_modem_samples s2)) (mod_out s2)).
      assert (Z.of_nat (length blk) = n_nom_modem_samples s) as Hblk
        by (unfold blk; rewrite length_take_le; lia).
      destruct (IH k s2 (drop n fin) (written ++ [blk]) r) as [Hrun Hend];
        [lia | lia | rewrite length_drop; nia | lia | exact Hr2 |].
      split; intros Hfuel.
      * destruct Hrun as (s' & w & Hloop & Hw); [lia|].
        exists s', (blk :: w). rewrite Hloop, <- app_assoc.
        split; [reflexivity | simpl; lia].
      * destruct Hend as (s' & w & Hloop & Hw & Hall); [lia|].
        exists s', (blk :: w). rewrite Hloop, <- app_assoc.
        split; [reflexivity|]. split; [simpl; lia|].
        constructor; [exact Hblk|].
        rewrite Hm2 in Hall. exact Hall.
Qed.

(** The session [main] enters the loop with: both buffers have their nominal
    length. *)
Lemma open_session_buffers env mode o (s : session) :
  open_session env mode o = inl s ->
  0 <= n_speech_samples s /\ 0 <= n_nom_modem_samples s
  /\ Z.of_nat (length (speech_in s)) = n_speech_samples s
  /\ Z.of_nat (length (mod_out s)) = n_nom_modem_samples s
  /\ use_codectx s = opt_use_codectx o /\ c2 s = opt_c2 o.
Proof.
  unfold open_session. destruct (freedv_open mode) as [f|]; [|discriminate].
  destruct (generate_address _ o) as [mac|]; [|discriminate]. cbn [bind].
  destruct (Z.ltb_spec (freedv_get_n_speech_samples
                          (freedv_set_verbose (freedv_set_data_header f mac) 1)) 0)
    as [|H1]; [discriminate|].
  destruct (Z.ltb_spec (freedv_get_n_nom_modem_samples
                          (freedv_set_verbose (freedv_set_data_header f mac) 1)) 0)
    as [|H2]; [discriminate|].
  intros Hs. injection Hs as <-. cbn.
  unfold malloc_shorts. rewrite !length_map, !length_seq. repeat split; lia.
Qed.

(** Whatever the command line, [use_codectx] is set only together with a
    codec. *)
Lemma parse_arg_codec env mode argv i o o' :
  parse_arg env mode argv i o = inl o' ->
  opt_use_codectx o = 0 \/ opt_c2 o <> None ->
  opt_use_codectx o' = 0 \/ opt_c2 o' <> None.
Proof.
  unfold parse_arg. intros Hparse Hinv.
  repeat match type of Hparse with
         | context [match codec2_create ?m with _ => _ end] =>
             destruct (codec2_create m)
         | context [match ?l !! ?j with _ => _ end] => destruct (l !! j)
         | context [if ?b then _ else _] => destruct b
         end;
    cbn in Hparse; try discriminate; injection Hparse as <-; cbn;
    try exact Hinv; right; discriminate.
Qed.

Lemma parse_args_codec env mode argv n :
  forall i o o',
  parse_args env mode argv n i o = inl o' ->
  opt_use_codectx o = 0 \/ opt_c2 o <> None ->
  opt_use_codectx o' = 0 \/ opt_c2 o' <> None.
Proof.
  induction n as [|n IH]; intros i o o' Hparse Hinv.
  - injection Hparse as <-. exact Hinv.
  - cbn [parse_args] in Hparse.
    destruct (parse_arg env mode argv i o) as [o1|t] eqn:Harg; [|discriminate].
    cbn [bind] in Hparse.
    exact (IH _ _ _ Hparse (parse_arg_codec _ _ _ _ _ _ Harg Hinv)).
Qed.

(** What [main] has established when it reaches the loop. *)
Lemma start_session env argv (s : session) fin :
  start env argv = inr (s, fin) ->
  0 <= n_speech_samples s /\ 0 <= n_nom_modem_samples s
  /\ Z.of_nat (length (mod_out s)) = n_nom_modem_samples s
  /\ (use_codectx s = 0 \/ c2 s <> None).
Proof.
  unfold start. cbv zeta beta.
  destruct (_ <? 4)%nat; [discriminate|].
  destruct (_ =? -1); [discriminate|].
  destruct (if String.eqb _ "-" then _ else fopen_rb _ _) as [e|fin'];
    [discriminate|].
  destruct (if String.eqb _ "-" then _ else fopen_wb _ _) as [e|];
    [discriminate|].
  destruct (parse_args _ _ _ _ _ _) as [o|t] eqn:Hparse; [|discriminate].
  cbn [bind].
  destruct (open_session _ _ o) as [s0|t] eqn:Hopen; [|discriminate].
  intros Hs. injection Hs as <- <-.
  destruct (open_session_buffers _ _ _ _ Hopen) as (H1 & H2 & _ & H4 & H5 & H6).
  repeat split; try assumption.
  rewrite H5, H6.
  apply (parse_args_codec _ _ _ _ _ _ _ Hparse). now left.
Qed.

(** C8: when start-up reaches the loop with an input stream of exactly [k]
    whole audio blocks followed by [r] samples, fewer than one block, the
    main loop runs its body exactly [k] times (after [k] reads it is still
    looping, the read after that ends it), hands exactly [k] blocks to
    [fwrite], each of the nominal number of modem samples, reports nothing
    and returns 0: the short read is the end of the stream, not an error.
    With [--codectx] the library must not report a codec frame of zero
    bits, on which the driver divides. *)
Theorem main_block_count (env : Env) (argv : list string) (s : session)
    (fin : list Z) (k : nat) (r : Z) :
  start env argv = inr (s, fin) ->
  0 < n_speech_samples s -> 0 <= r < n_speech_samples s ->
  Z.of_nat (length fin) = Z.of_nat k * n_speech_samples s + r ->
  (use_codectx s = 0 \/ forall f, freedv_get_bits_per_codec_frame f <> 0) ->
  forall fuel,
    ((fuel <= k)%nat ->
     term (main fuel env argv) = Running
     /\ length (modem (main fuel env argv)) = fuel)
    /\ ((k < fuel)%nat ->
        term (main fuel env argv) = Exited 0
        /\ err (main fuel env argv) = []
        /\ length (modem (main fuel env argv)) = k
        /\ Forall (fun b => Z.of_nat (length b) = n_nom_modem_samples s)
                  (modem (main fuel env argv))).
Proof.
  intros Hstart Hn Hr Hlen Hbits fuel.
  destruct (start_session env argv s fin Hstart) as (_ & _ & Hout & Hcodec).
  assert (codectx_ready s) as Hready.
  { destruct Hbits as [H0|Hbits]; [now left|].
    destruct Hcodec as [H0|Hc2]; [now left|]. right. now split. }
  destruct (main_loop_run fuel k s fin [] r Hn Hr Hlen Hout Hready)
    as [Hrun Hend].
  unfold main. rewrite Hstart. split; intros Hfuel.
  - destruct (Hrun Hfuel) as (s' & w & -> & Hw). cbn. now split.
  - destruct (Hend Hfuel) as (s' & w & -> & Hw & Hall). cbn. repeat split;
      assumption.
Qed.

(** *** Start-up *)

Lemma parse_mode_unknown a :
  a <> "2400A"%string -> a <> "2400B"%string -> a <> "800XA"%string ->
  parse_mode a = -1.
Proof.
  intros H1 H2 H3. unfold parse_mode.
  apply String.eqb_neq in H1, H2, H3. rewrite H1, H2, H3. reflexivity.
Qed.

(** C7, what the code does: with a mode argument outside 2400A, 2400B and
    800XA the program prints "Error in mode: ..." on [stderr], processes no
    frame, and ends through [exit (0)]: the exit status is zero. *)
Theorem main_unknown_mode_exits_zero (fuel : nat) (env : Env)
    (argv : list string) (mode_arg : string) :
  (4 <= length argv)%nat -> argv !! 1%nat = Some mode_arg ->
  mode_arg <> "2400A"%string -> mode_arg <> "2400B"%string ->
  mode_arg <> "800XA"%string ->
  main fuel env argv
  = {| term := Exited 0;
       err := [("Error in mode: " ++ mode_arg ++ nl)%string];
       out := []; modem := [] |}.
Proof.
  intros Hargc Harg H1 H2 H3. unfold main, start. cbv zeta beta.
  destruct (Nat.ltb_spec (length argv) 4) as [Hlt|_]; [lia|].
  rewrite Harg. cbn [from_option]. unfold id.
  rewrite (parse_mode_unknown mode_arg H1 H2 H3). reflexivity.
Qed.

(** C6, what the code does: [main] drops the status of [eth_ar_call2mac].
    With an SSID of 16, or with a callsign that holds a dash, start-up goes
    on with the address buffer as it found it on the stack; run on the
    loop-back library with [--ssid 16] and two quiet blocks then a loud one,
    the program transmits all three blocks and returns 0, and the second
    block, a test-pattern frame, carries the stack bytes [01 02 ...] as its
    source address. *)
Theorem main_drops_address_error :
  (forall (mac : list Z) (cs : string) (mc : bool) (u : Z) (c : option CODEC2)
          (thr : spec_float),
      EthAr.eth_ar_call2mac mac cs 16 mc = (-1, mac)
      /\ generate_address mac
           {| callsign := Some cs; ssid := 16; multicast := mc;
              opt_use_codectx := u; opt_c2 := c; opt_data_threshold := thr |}
         = inl mac)
  /\ (forall (mac : list Z) (mc : bool),
        EthAr.eth_ar_call2mac mac "NO-CALL" 0 mc = (-1, mac)
        /\ generate_address mac
             {| callsign := Some "NO-CALL"%string; ssid := 0; multicast := mc;
                opt_use_codectx := 0; opt_c2 := None;
                opt_data_threshold := Float32.of_int 15 |}
           = inl mac)
  /\ @main loopback 10 (demo_env [0; 0; 0; 0; 5000; 6000; 7])
       ["freedv_mixed_tx"; "2400A"; "-"; "-"; "--ssid"; "16"]%string
     = {| term := Exited 0; err := []; out := [];
          modem := [[0; 0; 0]; [78; 1; 2]; [5000; 6000; 1]] |}.
Proof.
  split; [|split].
  - intros mac cs mc u c thr.
    assert (EthAr.eth_ar_call2mac mac cs 16 mc = (-1, mac)) as Hcall
      by reflexivity.
    split; [exact Hcall|]. unfold generate_address. cbn [callsign ssid multicast].
    rewrite Hcall. reflexivity.
  - intros mac mc.
    assert (EthAr.eth_ar_call2mac mac "NO-CALL" 0 mc = (-1, mac)) as Hcall
      by reflexivity.
    split; [exact Hcall|]. unfold generate_address. cbn [callsign ssid multicast].
    rewrite Hcall. reflexivity.
  - vm_compute. reflexivity.
Qed.

End DriverFacts.

(** *** The theorems on a concrete library *)

(** C4 on the scores 14 and 15 against the default threshold 15, and on a
    quiet and a loud block in each branch of the loop. *)
Lemma frame_decision_rule_witness :
  Float32.valid (Float32.of_int 14) = true
  /\ Float32.valid (Float32.of_int 15) = true
  /\ Driver.decide (Float32.of_int 14) (Float32.of_int 15) = Driver.DATA
  /\ Driver.decide (Float32.of_int 15) (Float32.of_int 15) = Driver.VOICE
  /\ (exists s', Driver.tx_block (demo_block false [0; 0]) = Some (Driver.DATA, s'))
  /\ (exists s',
        Driver.tx_block (demo_block false [5000; 6000]) = Some (Driver.VOICE, s'))
  /\ (exists s', Driver.tx_block (demo_block true [0; 0]) = Some (Driver.DATA, s'))
  /\ (exists s',
        Driver.tx_block (demo_block true [5000; 6000]) = Some (Driver.VOICE, s')).
Proof.
  split; [reflexivity|]. split; [reflexivity|].
  destruct (@frame_decision_rule Driver.loopback)
    as (Hrule & Hexact & _ & Hblock & _).
  split; [|split; [|split; [|split; [|split]]]].
  - destruct (Hexact (Float32.of_int 14) (Float32.of_int 15) _ _
                eq_refl eq_refl eq_refl eq_refl) as (Hdata & _ & _).
    apply Hdata. vm_compute. reflexivity.
  - apply Hrule. exact (Float32.of_int 15).
  - destruct (Hblock (demo_block false [0; 0])) as (energy & s' & He & Htx & _);
      [left; reflexivity|].
    exists s'. rewrite Htx. vm_compute in He. injection He as <-. reflexivity.
  - destruct (Hblock (demo_block false [5000; 6000]))
      as (energy & s' & He & Htx & _); [left; reflexivity|].
    exists s'. rewrite Htx. vm_compute in He. injection He as <-. reflexivity.
  - destruct (Hblock (demo_block true [0; 0])) as (energy & s' & He & Htx & _);
      [right; split; discriminate|].
    exists s'. rewrite Htx. vm_compute in He. injection He as <-. reflexivity.
  - destruct (Hblock (demo_block true [5000; 6000]))
      as (energy & s' & He & Htx & _); [right; split; discriminate|].
    exists s'. rewrite Htx. vm_compute in He. injection He as <-. reflexivity.
Defined.

(** C7 at the mode ["1600"]. *)
Lemma main_unknown_mode_exits_zero_witness :
  (4 <= length ["freedv_mixed_tx"; "1600"; "in.raw"; "out.raw"]%string)%nat
  /\ Driver.term
       (@Driver.main Driver.loopback 10 (Driver.demo_env [])
          ["freedv_mixed_tx"; "1600"; "in.raw"; "out.raw"]%string)
     = Driver.Exited 0.
Proof.
  split; [simpl; lia|].
  rewrite (@main_unknown_mode_exits_zero Driver.loopback 10 (Driver.demo_env [])
             ["freedv_mixed_tx"; "1600"; "in.raw"; "out.raw"]%string
             "1600"%string);
    [reflexivity | simpl; lia | reflexivity | discriminate | discriminate
     | discriminate].
Defined.

(** C8 on standard input holding three whole blocks of two samples followed
    by one sample. *)
Lemma main_block_count_witness :
  let env := Driver.demo_env [100; 200; 300; 400; 5000; 6000; 7] in
  let argv := ["freedv_mixed_tx"; "2400A"; "-"; "-"]%string in
  exists s fin,
    @Driver.start Driver.loopback env argv = inr (s, fin)
    /\ 0 < Driver.n_speech_samples s
    /\ Z.of_nat (length fin) = Z.of_nat 3 * Driver.n_speech_samples s + 1
    /\ Driver.term (@Driver.main Driver.loopback 4 env argv) = Driver.Exited 0
    /\ length (Driver.modem (@Driver.main Driver.loopback 4 env argv)) = 3%nat.
Proof.
  cbv zeta.
  destruct (@Driver.start Driver.loopback
              (Driver.demo_env [100; 200; 300; 400; 5000; 6000; 7])
              ["freedv_mixed_tx"; "2400A"; "-"; "-"]%string)
    as [o|[s fin]] eqn:Hstart.
  - exfalso. vm_compute in Hstart. discriminate.
  - exists s, fin. split; [reflexivity|].
    pose proof Hstart as Hs. vm_compute in Hs. injection Hs as Hs Hfin.
    assert (Driver.n_speech_samples s = 2) as Hn by (now subst s).
    assert (length fin = 7%nat) as Hlen by (now subst fin).
    assert (Driver.use_codectx s = 0) as Hu by (now subst s).
    clear Hs Hfin.
    split; [lia|]. split; [lia|].
    destruct (@main_block_count Driver.loopback _ _ s fin 3 1 Hstart
                ltac:(lia) ltac:(lia) ltac:(lia) (or_introl Hu) 4)
      as [_ Hend].
    destruct (Hend ltac:(lia)) as (Hterm & _ & Hcount & _).
    split; [exact Hterm | exact Hcount].
Defined.

(** * Further properties of the code *)

(** ** The address encoder: what decides the address *)

Section EthArMore.

Import EthAr.

(** The scan looks at the callsign only through [scanned_char]. *)
Lemma call2mac_scan_ext cs1 cs2 n add :
  (forall p, (p < n)%nat -> scanned_char cs1 p = scanned_char cs2 p) ->
  call2mac_scan cs1 n add = call2mac_scan cs2 n add.
Proof.
  revert add. induction n as [|n IH]; intros add Hsame; [reflexivity|].
  cbn [call2mac_scan]. rewrite (Hsame n) by lia.
  destruct (_ =? _); [reflexivity|]. apply IH. intros p Hp. apply Hsame. lia.
Qed.

(** A successful scan has seen eight characters of the table and returns
    their base-37 value. *)
Lemma accumulate_some callsign add :
  accumulate callsign = Some add ->
  (forall p, (p < 8)%nat -> in_alphabet (scanned_char callsign p) = true)
  /\ add = base37_value (digit_at callsign) 8
  /\ 0 <= add < 2 ^ 42.
Proof.
  intros Hacc.
  assert (forall p, (p < 8)%nat -> in_alphabet (scanned_char callsign p) = true)
    as Hin.
  { intros p Hp.
    destruct (in_alphabet (scanned_char callsign p)) eqn:Hp'; [reflexivity|].
    unfold accumulate in Hacc.
    rewrite (call2mac_scan_invalid callsign 8 0 p Hp) in Hacc; [discriminate|].
    now apply symbol_index_out. }
  assert (forall p, (p < 8)%nat -> 0 <= digit_at callsign p < 37) as Hd.
  { intros p Hp. rewrite <- scanned_digit. apply symbol_index_in, Hin, Hp. }
  split; [exact Hin|].
  unfold accumulate in Hacc.
  rewrite (call2mac_scan_value callsign 8 0 Hd) in Hacc;
    [|lia|vm_compute; discriminate].
  pose proof (base37_value_bounds (digit_at callsign) 8 Hd) as Hb.
  set (v := base37_value (digit_at callsign) 8) in *.
  assert (add = v) as -> by (injection Hacc as <-; lia).
  change (37 ^ Z.of_nat 8) with 3512479453921 in Hb.
  change (2 ^ 42) with 4398046511104.
  split; [reflexivity|lia].
Qed.

(** The six bytes of a successful call, in arithmetic form. *)
Lemma call2mac_success a0 a1 a2 a3 a4 a5 callsign ssid multicast add :
  0 <= ssid <= 15 -> accumulate callsign = Some add -> 0 <= add < 2 ^ 42 ->
  eth_ar_call2mac [a0; a1; a2; a3; a4; a5] callsign ssid multicast
  = (0, [64 * Z.shiftr add 40 + 4 * ssid + 2 + Z.b2z multicast;
         Z.shiftr add 32 mod 256; Z.shiftr add 24 mod 256;
         Z.shiftr add 16 mod 256; Z.shiftr add 8 mod 256; add mod 256]).
Proof.
  intros Hs Hacc Hadd.
  assert (Z.land (Z.shiftr add (40 - 6)) 0xc0 = 64 * Z.shiftr add 40) as Htop.
  { change (40 - 6) with 34. rewrite land_c0.
    - rewrite Z.shiftr_shiftr by lia. reflexivity.
    - rewrite Z.shiftr_div_pow2 by lia.
      change (2 ^ 42) with (256 * 2 ^ 34) in Hadd.
      split; [apply Z.div_pos; lia | apply Z.div_lt_upper_bound; lia]. }
  assert (0 <= Z.shiftr add 40 < 4) as Ht.
  { rewrite Z.shiftr_div_pow2 by lia.
    change (2 ^ 42) with (4 * 2 ^ 40) in Hadd.
    split; [apply Z.div_pos; lia | apply Z.div_lt_upper_bound; lia]. }
  destruct (byte0_cases (Z.shiftr add 40) ssid multicast Ht Hs) as (Hval & _).
  unfold eth_ar_call2mac.
  replace ((15 <? ssid) || (ssid <? 0)) with false
    by (symmetry; apply orb_false_iff; split; apply Z.ltb_ge; lia).
  rewrite Hacc, Htop, !land_ff, Hval.
  replace (uint8 (Z.land add 0xff)) with (add mod 256)
    by (rewrite <- (Z.shiftr_0_r add) at 2; rewrite land_ff;
        now rewrite Z.shiftr_0_r).
  reflexivity.
Qed.

(** X1: a successful call writes all six bytes: the address it leaves does
    not depend on what the buffer held before. *)
Theorem call2mac_overwrites (mac1 mac2 : list Z) (callsign : string)
    (ssid : Z) (multicast : bool) :
  length mac1 = 6%nat -> length mac2 = 6%nat ->
  fst (eth_ar_call2mac mac1 callsign ssid multicast) = 0 ->
  eth_ar_call2mac mac2 callsign ssid multicast
  = eth_ar_call2mac mac1 callsign ssid multicast.
Proof.
  intros H1 H2. unfold eth_ar_call2mac.
  destruct ((15 <? ssid) || (ssid <? 0)); [discriminate|].
  destruct (accumulate callsign) as [add|]; [|discriminate]. intros _.
  destruct mac1 as [|a0 [|a1 [|a2 [|a3 [|a4 [|a5 [|]]]]]]]; try discriminate.
  destruct mac2 as [|b0 [|b1 [|b2 [|b3 [|b4 [|b5 [|]]]]]]]; try discriminate.
  reflexivity.
Qed.

Lemma call2mac_overwrites_witness :
  length [1; 2; 3; 4; 5; 6] = 6%nat /\ length [0; 0; 0; 0; 0; 0] = 6%nat
  /\ fst (eth_ar_call2mac [1; 2; 3; 4; 5; 6] "PA3XYZ" 7 false) = 0
  /\ eth_ar_call2mac [0; 0; 0; 0; 0; 0] "PA3XYZ" 7 false
     = eth_ar_call2mac [1; 2; 3; 4; 5; 6] "PA3XYZ" 7 false.
Proof.
  split; [reflexivity|]. split; [reflexivity|]. split; [reflexivity|].
  apply call2mac_overwrites; reflexivity.
Defined.

(** X2: the call sees a callsign only through its first eight characters,
    upper-cased: two callsigns of the same length capped at 8 whose
    characters below that length agree after [toupper] give the same status
    and the same address, whatever follows position 7. *)
Theorem call2mac_first8_upcased (mac : list Z) (cs1 cs2 : string) (ssid : Z)
    (multicast : bool) :
  Nat.min (strlen cs1) 8 = Nat.min (strlen cs2) 8 ->
  (forall p, (p < Nat.min (strlen cs1) 8)%nat ->
             toupper (char_at cs1 p) = toupper (char_at cs2 p)) ->
  eth_ar_call2mac mac cs1 ssid multicast = eth_ar_call2mac mac cs2 ssid multicast.
Proof.
  intros Hlen Hchars. unfold eth_ar_call2mac, accumulate.
  rewrite (call2mac_scan_ext cs1 cs2 8 0); [reflexivity|].
  intros p Hp. unfold scanned_char.
  destruct (Nat.leb_spec (strlen cs1) p) as [H1|H1];
    destruct (Nat.leb_spec (strlen cs2) p) as [H2|H2];
    try reflexivity; try lia.
  apply Hchars. lia.
Qed.

Lemma call2mac_first8_upcased_witness :
  Nat.min (strlen "Nocall12-and-more") 8 = Nat.min (strlen "NOCALL12") 8
  /\ eth_ar_call2mac [0; 0; 0; 0; 0; 0] "Nocall12-and-more" 3 true
     = eth_ar_call2mac [0; 0; 0; 0; 0; 0] "NOCALL12" 3 true.
Proof.
  split; [reflexivity|].
  apply call2mac_first8_upcased; [reflexivity|].
  intros p Hp. simpl in Hp.
  do 8 (destruct p as [|p]; [reflexivity|]). lia.
Defined.

Lemma toupper_nonzero c : c <> 0 -> toupper c <> 0.
Proof.
  intros Hc. unfold toupper.
  destruct ((97 <=? c) && (c <=? 122)) eqn:Hlow; [|exact Hc].
  apply andb_true_iff in Hlow. rewrite Z.leb_le in Hlow. lia.
Qed.

(** The scanned character is NUL exactly at and beyond the end. *)
Lemma scanned_char_zero callsign p :
  scanned_char callsign p = 0 <-> (strlen callsign <= p)%nat.
Proof.
  unfold scanned_char.
  destruct (Nat.leb_spec (strlen callsign) p) as [Hle|Hlt].
  - split; [intros _; exact Hle | reflexivity].
  - split; [|lia]. intros H0. exfalso.
    apply (toupper_nonzero (char_at callsign p)); [|exact H0].
    now apply char_at_strlen.
Qed.

(** Two characters of the table with the same index are the same. *)
Lemma symbol_index_inj c1 c2 :
  in_alphabet c1 = true -> in_alphabet c2 = true ->
  symbol_index c1 = symbol_index c2 -> c1 = c2.
Proof.
  intros H1 H2 Heq.
  rewrite <- (symbol_index_nth c1 H1), <- (symbol_index_nth c2 H2), Heq.
  reflexivity.
Qed.

(** X3: the address determines what was encoded.  Two successful calls
    that leave the same six bytes were given the same SSID, the same
    multicast flag, and callsigns of the same length capped at 8 that agree,
    upper-cased, on every character below that length. *)
Theorem call2mac_injective (mac1 mac2 : list Z) (cs1 cs2 : string)
    (ssid1 ssid2 : Z) (mc1 mc2 : bool) (r : list Z) :
  length mac1 = 6%nat -> length mac2 = 6%nat ->
  eth_ar_call2mac mac1 cs1 ssid1 mc1 = (0, r) ->
  eth_ar_call2mac mac2 cs2 ssid2 mc2 = (0, r) ->
  ssid1 = ssid2 /\ mc1 = mc2
  /\ Nat.min (strlen cs1) 8 = Nat.min (strlen cs2) 8
  /\ (forall p, (p < Nat.min (strlen cs1) 8)%nat ->
                toupper (char_at cs1 p) = toupper (char_at cs2 p)).
Proof.
  intros Hl1 Hl2 Hc1 Hc2.
  assert (forall mac cs ssid mc,
            eth_ar_call2mac mac cs ssid mc = (0, r) ->
            0 <= ssid <= 15 /\ exists add, accumulate cs = Some add) as Hok.
  { intros mac cs ssid mc. unfold eth_ar_call2mac.
    destruct ((15 <? ssid) || (ssid <? 0)) eqn:Hs; [discriminate|].
    apply orb_false_iff in Hs. rewrite !Z.ltb_ge in Hs.
    destruct (accumulate cs) as [add|]; [|discriminate].
    intros _. split; [lia|]. now exists add. }
  destruct (Hok _ _ _ _ Hc1) as (Hs1 & add1 & Ha1).
  destruct (Hok _ _ _ _ Hc2) as (Hs2 & add2 & Ha2). clear Hok.
  destruct (accumulate_some cs1 add1 Ha1) as (Hin1 & Hv1 & Hb1).
  destruct (accumulate_some cs2 add2 Ha2) as (Hin2 & Hv2 & Hb2).
  destruct mac1 as [|a0 [|a1 [|a2 [|a3 [|a4 [|a5 [|]]]]]]]; try discriminate.
  destruct mac2 as [|b0 [|b1 [|b2 [|b3 [|b4 [|b5 [|]]]]]]]; try discriminate.
  rewrite (call2mac_success _ _ _ _ _ _ cs1 ssid1 mc1 add1 Hs1 Ha1 Hb1) in Hc1.
  rewrite (call2mac_success _ _ _ _ _ _ cs2 ssid2 mc2 add2 Hs2 Ha2 Hb2) in Hc2.
  rewrite <- Hc1 in Hc2. clear Hc1.
  injection Hc2 as E0 E1 E2 E3 E4 E5.
  rewrite !Z.shiftr_div_pow2 in * by lia.
  change (2 ^ 42) with 4398046511104 in *.
  change (2 ^ 40) with 1099511627776 in *.
  change (2 ^ 32) with 4294967296 in *. change (2 ^ 24) with 16777216 in *.
  change (2 ^ 16) with 65536 in *. change (2 ^ 8) with 256 in *.
  assert (add1 = add2 /\ ssid1 = ssid2 /\ Z.b2z mc1 = Z.b2z mc2)
    as (Hadd & Hssid & Hmc).
  { destruct mc1, mc2; cbn [Z.b2z] in *; Z.div_mod_to_equations; lia. }
  split; [exact Hssid|]. split; [destruct mc1, mc2; try reflexivity; discriminate|].
  assert (forall p, (p < 8)%nat -> scanned_char cs1 p = scanned_char cs2 p)
    as Hsame.
  { intros p Hp. apply symbol_index_inj; [now apply Hin1 | now apply Hin2 |].
    rewrite !scanned_digit.
    assert (forall cs, (forall q, (q < 8)%nat -> in_alphabet (scanned_char cs q) = true) ->
              (base37_value (digit_at cs) 8 / 37 ^ Z.of_nat p) mod 37
              = digit_at cs p) as Hdig.
    { intros cs Hin. apply base37_value_digit; [|exact Hp].
      intros q Hq. rewrite <- scanned_digit. apply symbol_index_in, Hin, Hq. }
    rewrite <- (Hdig cs1 Hin1), <- (Hdig cs2 Hin2), <- Hv1, <- Hv2, Hadd.
    reflexivity. }
  assert (forall p, (p < 8)%nat ->
            ((strlen cs1 <= p)%nat <-> (strlen cs2 <= p)%nat)) as Hend.
  { intros p Hp. rewrite <- !scanned_char_zero, (Hsame p Hp). reflexivity. }
  assert (Nat.min (strlen cs1) 8 = Nat.min (strlen cs2) 8) as Hmin.
  { destruct (Nat.lt_trichotomy (Nat.min (strlen cs1) 8) (Nat.min (strlen cs2) 8))
      as [Hlt|[Heq|Hgt]]; [|exact Heq|].
    - pose proof (Hend (Nat.min (strlen cs1) 8) ltac:(lia)). lia.
    - pose proof (Hend (Nat.min (strlen cs2) 8) ltac:(lia)). lia. }
  split; [exact Hmin|].
  intros p Hp. specialize (Hsame p ltac:(lia)). unfold scanned_char in Hsame.
  destruct (Nat.leb_spec (strlen cs1) p) as [H1|_]; [lia|].
  destruct (Nat.leb_spec (strlen cs2) p) as [H2|_]; [lia|].
  exact Hsame.
Qed.

Lemma call2mac_injective_witness :
  eth_ar_call2mac [9; 9; 9; 9; 9; 9] "pa3xyz" 5 true
  = (0, [215; 49; 203; 184; 192; 76])
  /\ eth_ar_call2mac [0; 0; 0; 0; 0; 0] "PA3XYZ" 5 true
     = (0, [215; 49; 203; 184; 192; 76])
  /\ Nat.min (strlen "pa3xyz") 8 = Nat.min (strlen "PA3XYZ") 8.
Proof.
  assert (eth_ar_call2mac [9; 9; 9; 9; 9; 9] "pa3xyz" 5 true
          = (0, [215; 49; 203; 184; 192; 76])) as H1 by reflexivity.
  assert (eth_ar_call2mac [0; 0; 0; 0; 0; 0] "PA3XYZ" 5 true
          = (0, [215; 49; 203; 184; 192; 76])) as H2 by reflexivity.
  split; [exact H1|]. split; [exact H2|].
  apply (call2mac_injective [9; 9; 9; 9; 9; 9] [0; 0; 0; 0; 0; 0]
           "pa3xyz" "PA3XYZ" 5 5 true true [215; 49; 203; 184; 192; 76]
           eq_refl eq_refl H1 H2).
Defined.

(** X4: the digit of a character, in numbers: a decimal digit counts as its
    value, a letter of either case as 10 plus its rank in the alphabet, and
    every other character of the callsign gets the index 37 that makes the
    call fail. *)
Theorem digit_at_value (callsign : string) (p : nat) :
  (p < strlen callsign)%nat ->
  let c := char_at callsign p in
  (48 <= c <= 57 -> digit_at callsign p = c - 48)
  /\ (65 <= c <= 90 -> digit_at callsign p = c - 65 + 10)
  /\ (97 <= c <= 122 -> digit_at callsign p = c - 97 + 10)
  /\ (alnum c = false -> digit_at callsign p = 37).
Proof.
  intros Hp c. unfold digit_at.
  destruct (Nat.leb_spec (strlen callsign) p) as [Hle|_]; [lia|].
  fold c.
  assert (0 <= c < 256) as Hc by apply char_at_range.
  assert (c <> 0) as Hnz by now apply char_at_strlen.
  pose proof (range_cases 256
    (fun c =>
       (if (48 <=? c) && (c <=? 57) then symbol_index (toupper c) =? c - 48
        else true)
       && (if (65 <=? c) && (c <=? 90) then symbol_index (toupper c) =? c - 65 + 10
           else true)
       && (if (97 <=? c) && (c <=? 122) then symbol_index (toupper c) =? c - 97 + 10
           else true)
       && (if alnum c || (c =? 0) then true else symbol_index (toupper c) =? 37))
    ltac:(vm_compute; reflexivity) c Hc) as Hcase.
  cbv beta in Hcase. rewrite !andb_true_iff in Hcase.
  destruct Hcase as (((Hd & Hu) & Hl) & Ho).
  repeat split.
  - intros Hr.
    replace ((48 <=? c) && (c <=? 57)) with true in Hd
      by (symmetry; apply andb_true_iff; rewrite !Z.leb_le; lia).
    now apply Z.eqb_eq.
  - intros Hr.
    replace ((65 <=? c) && (c <=? 90)) with true in Hu
      by (symmetry; apply andb_true_iff; rewrite !Z.leb_le; lia).
    now apply Z.eqb_eq.
  - intros Hr.
    replace ((97 <=? c) && (c <=? 122)) with true in Hl
      by (symmetry; apply andb_true_iff; rewrite !Z.leb_le; lia).
    now apply Z.eqb_eq.
  - intros Hal. rewrite Hal in Ho. apply Z.eqb_neq in Hnz. rewrite Hnz in Ho.
    now apply Z.eqb_eq.
Qed.

Lemma digit_at_value_witness :
  (2 < strlen "pa3xyz")%nat
  /\ digit_at "pa3xyz" 2 = 3 /\ digit_at "pa3xyz" 0 = 25.
Proof.
  split; [simpl; lia|]. split.
  - apply (digit_at_value "pa3xyz" 2); [simpl; lia | vm_compute; split; discriminate].
  - apply (digit_at_value "pa3xyz" 0); [simpl; lia | vm_compute; split; discriminate].
Defined.

End EthArMore.

(** ** The packet source: what a call touches *)

Section DataTxMore.

Import DataTx.

Lemma drop_inserts (n i : nat) (k l : list Z) :
  (i + length k <= n)%nat -> drop n (list_inserts i k l) = drop n l.
Proof.
  revert i. induction k as [|y k IH]; intros i Hn; [reflexivity|].
  cbn [list_inserts]. simpl in Hn.
  rewrite drop_insert_lt by lia. apply IH. lia.
Qed.

Lemma fill_pattern_footprint (n : nat) :
  forall (i : Z) (packet : list Z) (m : nat),
  0 <= i -> (Z.to_nat (i + 14) + n <= m)%nat ->
  snd (fill_pattern n i packet) = i + Z.of_nat n
  /\ length (fst (fill_pattern n i packet)) = length packet
  /\ drop m (fst (fill_pattern n i packet)) = drop m packet.
Proof.
  induction n as [|n IH]; intros i packet m Hi Hm.
  - cbn. repeat split; lia.
  - cbn [fill_pattern].
    destruct (IH (i + 1) (<[Z.to_nat (i + 14) := uint8 i]> packet) m)
      as (Hsnd & Hlen & Hdrop); [lia | lia |].
    rewrite Hsnd, Hlen, Hdrop, length_insert, drop_insert_lt by lia.
    repeat split; lia.
Qed.

(** X5: on a buffer of at least 78 bytes and with a six-byte address,
    whatever the counter, a call of the callback reports a size of 0, 22 or
    78, which fits the buffer, keeps the length of the buffer, leaves every
    byte from index [size] on as it was (the whole buffer when the size is
    0), and does not change the address it was given. *)
Theorem my_datatx_footprint (st : state) (packet : list Z) :
  length (mac (cb st)) = 6%nat -> (78 <= length packet)%nat ->
  let size := snd (my_datatx st packet) in
  let packet' := snd (fst (my_datatx st packet)) in
  (size = 0 \/ size = 22 \/ size = 78)
  /\ size <= Z.of_nat (length packet)
  /\ length packet' = length packet
  /\ drop (Z.to_nat size) packet' = drop (Z.to_nat size) packet
  /\ (size = 0 -> packet' = packet)
  /\ mac (cb (fst (fst (my_datatx st packet)))) = mac (cb st).
Proof.
  intros Hsrc Hbuf. cbv zeta. rewrite my_datatx_counters. unfold my_datatx.
  assert (length (take 6 (mac (cb st))) <= 6)%nat as Hmac
    by (rewrite length_take; lia).
  destruct (Z.rem (data_type st) 4 =? 1).
  - match goal with
    | |- context [fill_pattern 64 0 ?p] =>
        destruct (fill_pattern_footprint 64 0 p 78) as (Hsnd & Hlen & Hdrop);
          [lia | simpl; lia |];
        destruct (fill_pattern 64 0 p) as [p' i] eqn:Hfill
    end.
    cbn [fst snd] in *. subst i. change (0 + Z.of_nat 64 + 14) with 78.
    split; [now right; right|]. split; [lia|].
    split.
    { rewrite Hlen, !length_insert. unfold memcpy, memset.
      now rewrite !length_inserts. }
    split.
    { change (Z.to_nat 78) with 78%nat. rewrite Hdrop.
      rewrite !drop_insert_lt by lia. unfold memcpy, memset.
      rewrite !drop_inserts;
        [reflexivity | rewrite length_replicate; lia | cbn [mac]; lia]. }
    split; [discriminate|reflexivity].
  - destruct (Z.rem (data_type st) 4 =? 2); cbn [fst snd].
    + split; [now right; left|]. split; [lia|].
      split.
      { rewrite !length_insert. unfold memcpy, memset.
        now rewrite !length_inserts. }
      split.
      { change (Z.to_nat 22) with 22%nat.
        rewrite !drop_insert_lt by lia. unfold memcpy, memset.
        rewrite !drop_inserts;
        [reflexivity | rewrite length_replicate; lia | cbn [mac]; lia]. }
      split; [discriminate|reflexivity].
    + split; [now left|]. split; [lia|]. repeat split; reflexivity.
Qed.

(** X5 on the call that builds the test pattern, in a 128-byte buffer. *)
Lemma my_datatx_footprint_witness :
  let st := {| data_type := 1; cb := {| calls := 0; mac := [2; 0; 0; 0; 0; 1] |} |} in
  let packet := replicate 128 7 in
  length (mac (cb st)) = 6%nat /\ (78 <= length packet)%nat
  /\ snd (my_datatx st packet) <= Z.of_nat (length packet)
  /\ length (snd (fst (my_datatx st packet))) = length packet
  /\ drop (Z.to_nat (snd (my_datatx st packet))) (snd (fst (my_datatx st packet)))
     = drop (Z.to_nat (snd (my_datatx st packet))) packet.
Proof.
  intros st packet. split; [reflexivity|]. split; [simpl; lia|].
  destruct (my_datatx_footprint st packet) as (_ & Hfit & Hlen & Hdrop & _);
    [reflexivity | simpl; lia |].
  split; [exact Hfit|]. split; [exact Hlen | exact Hdrop].
Defined.

End DataTxMore.

(** ** The energy of a block *)

Section EnergyMore.

Import Float32 Driver.

Context {api : Api}.

(** The loop reads samples [i .. i + n - 1] and only their squares. *)
Lemma energy_sum_ext (s1 s2 : list Z) (n : nat) :
  forall (i : nat) (e : spec_float),
  (forall j, (i <= j < i + n)%nat -> Z.abs (nth j s1 0) = Z.abs (nth j s2 0)) ->
  energy_sum s1 n i e = energy_sum s2 n i e.
Proof.
  induction n as [|n IH]; intros i e Hsame; [reflexivity|].
  cbn [energy_sum].
  replace (nth i s1 0 * nth i s1 0) with (nth i s2 0 * nth i s2 0)
    by (pose proof (Hsame i ltac:(lia)); nia).
  apply IH. intros j Hj. apply Hsame. lia.
Qed.

(** X6: the energy of a block depends only on the magnitudes of its first
    [nr] samples: two buffers whose first [nr] samples agree up to sign have
    the same energy, bit for bit, whatever else they hold. *)
Theorem samples_get_energy_magnitudes (s1 s2 : list Z) (nr : Z) :
  (forall j, (j < Z.to_nat nr)%nat -> Z.abs (nth j s1 0) = Z.abs (nth j s2 0)) ->
  samples_get_energy s1 nr = samples_get_energy s2 nr.
Proof.
  intros Hsame. unfold samples_get_energy.
  rewrite (energy_sum_ext s1 s2); [reflexivity|].
  intros j Hj. apply Hsame. lia.
Qed.

Lemma samples_get_energy_magnitudes_witness :
  samples_get_energy [300; -4000; 25; 7] 3 = samples_get_energy [-300; 4000; -25] 3.
Proof.
  apply samples_get_energy_magnitudes. intros j Hj.
  change (Z.to_nat 3) with 3%nat in Hj.
  do 3 (destruct j as [|j]; [reflexivity|]). lia.
Defined.

(** X7: a block of no samples has no energy to speak of: with [nr = 0] the
    mean is [0 / 0], a NaN, and a NaN is below no threshold; nor is any
    energy below a NaN threshold.  Either way the block is sent as voice. *)
Theorem energy_nan_is_voice (samples : list Z) (energy threshold : spec_float) :
  samples_get_energy samples 0 = S754_nan
  /\ decide (samples_get_energy samples 0) threshold = VOICE
  /\ decide S754_nan threshold = VOICE
  /\ decide energy S754_nan = VOICE.
Proof.
  split; [reflexivity|]. split; [reflexivity|]. split; [reflexivity|].
  unfold decide, ltb, SFltb. destruct energy; reflexivity.
Qed.

(** *** Rounding keeps a positive number positive *)

Lemma shr_1_m mrs : 0 <= shr_m mrs -> shr_m (shr_1 mrs) = shr_m mrs / 2.
Proof.
  destruct mrs as [m r s]. cbn [shr_m]. intros Hm.
  destruct m as [|p|p]; [reflexivity| |lia].
  rewrite <- Z.div2_div. destruct p; reflexivity.
Qed.

Lemma iter_pos_shr_m q :
  forall mrs, 0 <= shr_m mrs ->
  shr_m (SpecFloat.iter_pos shr_1 q mrs) = shr_m mrs / 2 ^ Z.pos q.
Proof.
  assert (forall a b, 0 <= a -> 0 < b -> 0 <= a / b) as Hdiv
    by (intros; apply Z.div_pos; lia).
  induction q as [q IH|q IH|]; intros mrs Hm; cbn [SpecFloat.iter_pos].
  - assert (0 < 2 ^ Z.pos q) as Hp by (apply Z.pow_pos_nonneg; lia).
    rewrite IH, IH, shr_1_m by
      (rewrite ?IH, ?shr_1_m by (rewrite ?shr_1_m by lia; auto with zarith);
       auto with zarith).
    rewrite !Z.div_div by lia. f_equal.
    replace (Z.pos q~1) with (1 + Z.pos q + Z.pos q) by lia.
    rewrite !Z.pow_add_r, Z.pow_1_r by lia. ring.
  - assert (0 < 2 ^ Z.pos q) as Hp by (apply Z.pow_pos_nonneg; lia).
    rewrite IH, IH by (rewrite ?IH by lia; auto with zarith).
    rewrite !Z.div_div by lia. f_equal.
    replace (Z.pos q~0) with (Z.pos q + Z.pos q) by lia.
    rewrite !Z.pow_add_r by lia. ring.
  - rewrite shr_1_m by lia. reflexivity.
Qed.

Lemma shr_record_of_loc_m m l : shr_m (shr_record_of_loc m l) = m.
Proof. destruct l as [|[| |]]; reflexivity. Qed.

(** Shifting a positive mantissa down to the precision of the format leaves
    it positive, as long as the exponent is not below [emin]. *)
Lemma shr_fexp_pos m e l :
  0 < m -> emin prec emax <= e ->
  0 < shr_m (fst (shr_fexp prec emax m e l))
  /\ emin prec emax <= snd (shr_fexp prec emax m e l).
Proof.
  intros Hm He. unfold shr_fexp, shr, fexp.
  change (emin prec emax) with (-149) in *. unfold prec.
  destruct m as [|p|p]; try lia. cbn [Zdigits2].
  pose proof (digits2_pos_bounds p) as [Hlo _].
  destruct (Z.max (Z.pos (digits2_pos p) + e - 24) (-149) - e) as [|q|q] eqn:Hn;
    cbn [fst snd]; rewrite ?shr_record_of_loc_m; try (split; lia).
  rewrite iter_pos_shr_m by (rewrite shr_record_of_loc_m; lia).
  rewrite shr_record_of_loc_m. split; [|lia].
  apply Z.div_str_pos. split; [apply Z.pow_pos_nonneg; lia|].
  eapply Z.le_trans; [|exact Hlo]. apply Z.pow_le_mono_r; lia.
Qed.

Lemma binary_round_aux_pos sx m e l :
  0 < m -> emin prec emax <= e ->
  (exists m' e', binary_round_aux prec emax sx m e l = S754_finite sx m' e')
  \/ binary_round_aux prec emax sx m e l = S754_infinity sx.
Proof.
  intros Hm He. unfold binary_round_aux.
  destruct (shr_fexp_pos m e l Hm He) as [Hm1 He1].
  destruct (shr_fexp prec emax m e l) as [mrs1 e1]. cbn [fst snd] in *.
  assert (0 < round_nearest_even (shr_m mrs1) (loc_of_shr_record mrs1)) as Hr.
  { unfold round_nearest_even.
    destruct (loc_of_shr_record mrs1) as [|[| |]]; try lia.
    destruct (Z.even (shr_m mrs1)); lia. }
  destruct (shr_fexp_pos _ e1 loc_Exact Hr He1) as [Hm2 _].
  destruct (shr_fexp prec emax _ e1 loc_Exact) as [mrs2 e2]. cbn [fst snd] in *.
  destruct (shr_m mrs2) as [|p|p]; try lia.
  destruct (e2 <=? emax - prec); [left; now eexists _, _ | now right].
Qed.

(** [(float) n] of a positive integer is a positive number or [+inf]. *)
Lemma of_int_pos n :
  0 < n ->
  (exists m e, of_int n = S754_finite false m e) \/ of_int n = S754_infinity false.
Proof.
  intros Hn. destruct n as [|p|p]; try lia.
  unfold of_int, binary_normalize, binary_round, shl_align.
  destruct (fexp prec emax (Z.pos (digits2_pos p) + 0) - 0) as [|d|d] eqn:Hd;
    apply binary_round_aux_pos; try lia;
    change (emin prec emax) with (-149); try lia.
  unfold fexp in *. change (emin prec emax) with (-149) in *. lia.
Qed.

Lemma energy_sum_nil n : forall i, energy_sum [] n i zero = zero.
Proof.
  induction n as [|n IH]; intros i; [reflexivity|].
  cbn [energy_sum]. replace (nth i [] 0) with 0 by (destruct i; reflexivity).
  apply IH.
Qed.

(** X8: silence is data.  Without [--codectx], when the block in
    [speech_in] is all zero (and not empty), its energy is exactly [+0], and
    for every threshold above zero the body of the loop sends it as data:
    it fills [mod_out] by [freedv_datatx]. *)
Theorem silence_is_data (s : session) (v : Z) :
  use_codectx s = 0 ->
  0 < n_speech_samples s ->
  (forall j, (j < Z.to_nat (n_speech_samples s))%nat -> nth j (speech_in s) 0 = 0) ->
  valid (data_threshold s) = true -> units (data_threshold s) = Some v -> 0 < v ->
  samples_get_energy (speech_in s) (n_speech_samples s) = zero
  /\ exists s',
       tx_block s = Some (DATA, s')
       /\ mod_out s'
          = store (mod_out s)
              (snd (freedv_datatx (fdv s) DataTx.my_datatx (cbs s))).
Proof.
  intros Hu Hnr Hzero Hv Hunits Hpos.
  assert (samples_get_energy (speech_in s) (n_speech_samples s) = zero) as He.
  { unfold samples_get_energy.
    rewrite (energy_sum_ext (speech_in s) []), energy_sum_nil.
    - destruct (of_int_pos (n_speech_samples s) Hnr) as [(m & e & ->)| ->];
        reflexivity.
    - intros j Hj. rewrite (Hzero j) by lia. destruct j; reflexivity. }
  split; [exact He|].
  destruct (tx_block_rule s (or_introl Hu))
    as (energy & s' & _ & Htx & Hen & _ & Hdata & _).
  rewrite (Hen Hu), He in Htx, Hdata.
  assert (decide zero (data_threshold s) = DATA) as Hd
    by (apply decide_data; apply (ltb_units zero (data_threshold s) 0 v); auto).
  rewrite Hd in Htx. exists s'. split; [exact Htx | exact (Hdata Hd)].
Qed.

(** *** Energies are not negative *)

Lemma shr_fexp_nonneg m e l :
  0 <= m -> 0 <= shr_m (fst (shr_fexp prec emax m e l)).
Proof.
  intros Hm. unfold shr_fexp, shr.
  destruct (fexp prec emax (Zdigits2 m + e) - e) as [|q|q]; cbn [fst];
    rewrite ?iter_pos_shr_m by (rewrite shr_record_of_loc_m; lia);
    rewrite shr_record_of_loc_m; try lia.
  apply Z.div_pos; [lia | apply Z.pow_pos_nonneg; lia].
Qed.

Lemma binary_round_aux_not_negative m e l :
  0 <= m -> not_negative (binary_round_aux prec emax false m e l).
Proof.
  intros Hm. unfold binary_round_aux.
  pose proof (shr_fexp_nonneg m e l Hm) as Hm1.
  destruct (shr_fexp prec emax m e l) as [mrs1 e1]. cbn [fst] in Hm1.
  assert (0 <= round_nearest_even (shr_m mrs1) (loc_of_shr_record mrs1)) as Hr.
  { unfold round_nearest_even.
    destruct (loc_of_shr_record mrs1) as [|[| |]]; try lia.
    destruct (Z.even (shr_m mrs1)); lia. }
  pose proof (shr_fexp_nonneg _ e1 loc_Exact Hr) as Hm2.
  destruct (shr_fexp prec emax _ e1 loc_Exact) as [mrs2 e2]. cbn [fst] in Hm2.
  destruct (shr_m mrs2) as [|p|p]; try lia; [exact I|].
  destruct (e2 <=? emax - prec); reflexivity.
Qed.

Lemma add_not_negative x y :
  not_negative x -> not_negative y -> not_negative (add x y).
Proof.
  intros Hx Hy. unfold add.
  destruct x as [sx|sx| |sx mx ex]; destruct y as [sy|sy| |sy my ey];
    cbn [not_negative] in Hx, Hy; subst; cbn [SFadd not_negative]; auto.
  - destruct sx, sy; exact I.
  - unfold binary_normalize, cond_Zopp.
    change (Z.pos ?a + Z.pos ?b) with (Z.pos (a + b)).
    unfold binary_round.
    destruct (shl_align _ _ _) as [mz ez].
    apply binary_round_aux_not_negative. lia.
Qed.

Lemma div_not_negative x y :
  not_negative x ->
  (exists m e, y = S754_finite false m e) \/ y = S754_infinity false ->
  not_negative (div x y).
Proof.
  intros Hx Hy. unfold div.
  destruct Hy as [(my & ey & ->)| ->];
    destruct x as [sx|sx| |sx mx ex];
    cbn [not_negative] in Hx; subst; cbn [SFdiv not_negative xorb]; auto.
  unfold SFdiv_core_binary.
  match goal with
  | |- context [Z.div_eucl ?a ?b] =>
      assert (0 <= a) as Ha
        by (destruct (_ - _ - _) as [|s|s];
            [lia | apply Z.shiftl_nonneg; lia | lia]);
      pose proof (Z.div_pos a b Ha ltac:(lia)) as Hq;
      unfold Z.div in Hq; destruct (Z.div_eucl a b) as [q r]
  end.
  apply binary_round_aux_not_negative. exact Hq.
Qed.

Lemma of_int_not_negative n : 0 <= n -> not_negative (of_int n).
Proof.
  intros Hn. destruct (Z.eq_dec n 0) as [->|Hne]; [exact I|].
  destruct (of_int_pos n ltac:(lia)) as [(m & e & ->)| ->]; reflexivity.
Qed.

Lemma energy_sum_not_negative samples n :
  forall i e, not_negative e -> not_negative (energy_sum samples n i e).
Proof.
  induction n as [|n IH]; intros i e He; [exact He|].
  cbn [energy_sum]. apply IH, add_not_negative; [exact He|].
  apply div_not_negative; [apply of_int_not_negative; nia|].
  left. now eexists _, _.
Qed.

(** X9: an energy is never below zero.  For every block and every sample
    count the energy is a zero, a positive number, [+inf] or a NaN; so
    without [--codectx], with a threshold that is not above zero, the body
    of the loop never sends data: it fills [mod_out] by [freedv_tx]. *)
Theorem energy_not_negative (s : session) (samples : list Z) (nr : Z) :
  0 <= nr ->
  not_negative (samples_get_energy samples nr)
  /\ (use_codectx s = 0 -> 0 <= n_speech_samples s ->
      ltb zero (data_threshold s) = false ->
      exists s',
        tx_block s = Some (VOICE, s')
        /\ mod_out s'
           = store (mod_out s) (snd (freedv_tx (fdv s) (speech_in s)))).
Proof.
  intros Hnr.
  assert (forall samples nr, 0 <= nr ->
            not_negative (samples_get_energy samples nr)) as Hnn.
  { clear. intros samples nr Hnr. unfold samples_get_energy.
    destruct (Z.eq_dec nr 0) as [->|Hne].
    - cbn [Z.to_nat energy_sum]. exact I.
    - apply div_not_negative; [apply energy_sum_not_negative; exact I|].
      apply of_int_pos. lia. }
  split; [exact (Hnn samples nr Hnr)|]. intros Hu Hn Hthr.
  destruct (tx_block_rule s (or_introl Hu))
    as (energy & s' & _ & Htx & Hen & _ & _ & Hvoice).
  rewrite (Hen Hu) in Htx, Hvoice.
  assert (decide (samples_get_energy (speech_in s) (n_speech_samples s))
                 (data_threshold s) = VOICE) as Hd.
  { apply decide_voice. specialize (Hnn (speech_in s) (n_speech_samples s) Hn).
    unfold ltb, SFltb in *.
    destruct (samples_get_energy (speech_in s) (n_speech_samples s))
      as [e|e| |e m x];
      cbn [not_negative] in Hnn; subst;
      destruct (data_threshold s) as [t|t| |t mt et]; cbn [SFcompare] in *;
      try reflexivity; try discriminate;
      destruct t; try reflexivity; try discriminate;
      destruct e; reflexivity. }
  rewrite Hd in Htx. exists s'. split; [exact Htx | exact (Hvoice Hd Hu)].
Qed.

End EnergyMore.

(** X8 on a silent block of four samples against the default threshold 15. *)
Lemma silence_is_data_witness :
  Driver.use_codectx (demo_session 4) = 0
  /\ 0 < Driver.n_speech_samples (demo_session 4)
  /\ Driver.samples_get_energy (Driver.speech_in (demo_session 4)) 4 = Float32.zero
  /\ exists s', Driver.tx_block (demo_session 4) = Some (Driver.DATA, s').
Proof.
  split; [reflexivity|]. split; [reflexivity|].
  assert (forall j, (j < Z.to_nat (Driver.n_speech_samples (demo_session 4)))%nat ->
                    nth j (Driver.speech_in (demo_session 4)) 0 = 0) as Hz
    by (intros j Hj; change (Z.to_nat _) with 4%nat in Hj;
        do 4 (destruct j as [|j]; [reflexivity|]); lia).
  destruct (@silence_is_data Driver.loopback (demo_session 4) (15 * 2 ^ 149)
              eq_refl eq_refl Hz eq_refl eq_refl)
    as (He & s' & Htx & _); [vm_compute; reflexivity|].
  split; [exact He|]. exists s'. exact Htx.
Defined.

(** X9 on a loud block against a threshold of zero. *)
Lemma energy_not_negative_witness :
  let s := @Driver.Build_session Driver.loopback 3 0 None
             (DataTx.fresh (Driver.stack_junk (Driver.demo_env [])))
             (S754_zero false) 3 3 [1000; -1000; 20] [0; 0; 0] in
  0 <= 3
  /\ Float32.ltb Float32.zero (Driver.data_threshold s) = false
  /\ not_negative (Driver.samples_get_energy [1000; -1000; 20] 3)
  /\ exists s', Driver.tx_block s = Some (Driver.VOICE, s').
Proof.
  intros s. split; [lia|]. split; [reflexivity|].
  destruct (@energy_not_negative Driver.loopback s [1000; -1000; 20] 3)
    as (Hnn & Hvoice); [lia|].
  split; [exact Hnn|].
  destruct Hvoice as (s' & Htx & _); [reflexivity | simpl; lia | reflexivity|].
  exists s'. exact Htx.
Defined.


(** ** The command line *)

Section CommandLine.

Import Driver.

Context {api : Api}.




(** A value-taking option in the last place finds [NULL] where its value
    should be. *)
Lemma parse_arg_missing env mode argv i o a :
  S i = length argv -> argv !! i = Some a ->
  a = "--ssid"%string \/ a = "--mac-multicast"%string
  \/ a = "--data-threshold"%string ->
  parse_arg env mode argv i o = inr Undefined.
Proof.
  intros Hi Ha Hname. unfold parse_arg.
  rewrite Ha, (lookup_ge_None_2 argv (S i)) by lia.
  destruct Hname as [-> | [-> | ->]]; reflexivity.
Qed.

Lemma parse_args_missing env mode argv a n :
  forall i o,
  (i + S n = length argv)%nat -> argv !! (i + n)%nat = Some a ->
  a = "--ssid"%string \/ a = "--mac-multicast"%string
  \/ a = "--data-threshold"%string ->
  exists t, parse_args env mode argv (S n) i o = inr t.
Proof.
  induction n as [|n IH]; intros i o Hi Ha Hname.
  - cbn [parse_args]. rewrite Nat.add_0_r in Ha.
    rewrite (parse_arg_missing env mode argv i o a) by (assumption || lia).
    now eexists.
  - cbn [parse_args].
    destruct (parse_arg env mode argv i o) as [o1|t]; [|now eexists].
    cbn [bind]. apply IH; [lia | | exact Hname].
    rewrite <- Ha. f_equal. lia.
Qed.

(** X11: an option that needs a value but stands last on the command line
    ([--ssid], [--mac-multicast] or [--data-threshold]) keeps the program
    from ever reaching its main loop: no session is started and nothing is
    written, whatever the mode, the files and the other options. *)
Theorem start_missing_value (env : Env) (argv : list string) (a : string) :
  (5 <= length argv)%nat ->
  argv !! (length argv - 1)%nat = Some a ->
  a = "--ssid"%string \/ a = "--mac-multicast"%string
  \/ a = "--data-threshold"%string ->
  exists o,
    start env argv = inl o /\ modem o = []
    /\ forall fuel, main fuel env argv = o.
Proof.
  intros Hargc Ha Hname.
  assert (exists o, start env argv = inl o /\ modem o = []) as (o & Hstart & Hm).
  { unfold start. cbv zeta.
    destruct (_ <? 4)%nat; [now eexists|].
    destruct (_ =? -1); [now eexists|].
    destruct (if String.eqb _ "-" then _ else fopen_rb _ _) as [e|fin];
      [now eexists|].
    destruct (if String.eqb _ "-" then _ else fopen_wb _ _) as [e|];
      [now eexists|].
    destruct (parse_args_missing env
                (parse_mode (default ""%string (argv !! 1%nat))) argv a
                (length argv - 5) 4 default_options) as (t & Ht);
      [lia | rewrite <- Ha; f_equal; lia | exact Hname |].
    replace (length argv - 4)%nat with (S (length argv - 5)) by lia.
    rewrite Ht. cbn [bind]. now eexists. }
  exists o. split; [exact Hstart|]. split; [exact Hm|].
  intros fuel. unfold main. now rewrite Hstart.
Qed.

End CommandLine.

Lemma start_missing_value_witness :
  (5 <= length ["freedv_mixed_tx"; "2400A"; "-"; "-"; "--codectx"; "--ssid"]%string)%nat
  /\ exists o,
       @Driver.start Driver.loopback (Driver.demo_env [])
         ["freedv_mixed_tx"; "2400A"; "-"; "-"; "--codectx"; "--ssid"]%string
       = inl o.
Proof.
  split; [simpl; lia|].
  destruct (@start_missing_value Driver.loopback (Driver.demo_env [])
              ["freedv_mixed_tx"; "2400A"; "-"; "-"; "--codectx"; "--ssid"]%string
              "--ssid"%string ltac:(simpl; lia) eq_refl (or_introl eq_refl))
    as (o & Hstart & _).
  now exists o.
Defined.


(** ** The main loop as a stream transformer *)

Section LoopMore.

Import Driver.

Context {api : Api}.

(** X12: the loop works block by block and never looks ahead.  When [fin1]
    is a whole number [k] of blocks, running on [fin1 ++ fin2] first does
    exactly what running on [fin1] does (the same [k] blocks written, the
    same session reached), then goes on with [fin2] from there. *)
Theorem main_loop_streams (k : nat) :
  forall (s : session) (fin1 fin2 : list Z) (written : list (list Z)),
  0 < n_speech_samples s ->
  Z.of_nat (length fin1) = Z.of_nat k * n_speech_samples s ->
  codectx_ready s ->
  exists s' w,
    main_loop k s fin1 written = (OutOfFuel, s', written ++ w)
    /\ length w = k
    /\ forall fuel,
         main_loop (k + fuel) s (fin1 ++ fin2) written
         = main_loop fuel s' fin2 (written ++ w).
Proof.
  induction k as [|k IH]; intros s fin1 fin2 written Hn Hlen Hready.
  - exists s, []. rewrite app_nil_r. split; [reflexivity|]. split; [reflexivity|].
    intros fuel. destruct fin1; [reflexivity|simpl in Hlen; lia].
  - set (n := Z.to_nat (n_speech_samples s)).
    assert (n <= length fin1)%nat as Hfull by nia.
    assert (length (take n fin1) = n) as Htake by (apply length_take_le; lia).
    set (s1 := set_speech_in s (store (speech_in s) (take n fin1))).
    destruct (tx_block_total s1) as (d & s2 & Htx & Hn2 & _ & _ & Hr2);
      [exact Hready|].
    change (n_speech_samples s1) with (n_speech_samples s) in Hn2.
    set (blk := take (Z.to_nat (n_nom_modem_samples s2)) (mod_out s2)).
    destruct (IH s2 (drop n fin1) fin2 (written ++ [blk])) as (s' & w & Hrun & Hw & Hgo);
      [lia | rewrite length_drop; nia | exact Hr2 |].
    exists s', (blk :: w).
    assert (forall fuel rest,
              main_loop (S fuel) s (take n fin1 ++ rest) written
              = main_loop fuel s2 rest (written ++ [blk])) as Hstep.
    { intros fuel rest. cbn [main_loop]. unfold fread. fold n.
      rewrite take_app_le, drop_app_le by lia.
      rewrite take_take, Nat.min_id, drop_ge, app_nil_l by lia.
      fold s1. change (n_speech_samples s1) with (n_speech_samples s).
      destruct (Z.eqb_spec (Z.of_nat (length (take n fin1))) (n_speech_samples s))
        as [_|Hne]; [|lia].
      rewrite Htx. reflexivity. }
    split; [|split; [simpl; lia|]].
    + rewrite <- (take_drop n fin1) at 1. rewrite Hstep, Hrun, <- app_assoc.
      reflexivity.
    + intros fuel. cbn [Nat.add].
      rewrite <- (take_drop n fin1) at 1. rewrite <- app_assoc, Hstep, Hgo.
      rewrite <- app_assoc. reflexivity.
Qed.

(** X13: a library that reports a block length of zero makes the loop
    endless.  Every [fread] of zero items succeeds, so whatever the input,
    after any number of reads the loop is still running and has written one
    block per read. *)
Theorem main_loop_zero_block (fuel : nat) :
  forall (s : session) (fin : list Z) (written : list (list Z)),
  n_speech_samples s = 0 -> codectx_ready s ->
  exists s' w,
    main_loop fuel s fin written = (OutOfFuel, s', written ++ w)
    /\ length w = fuel.
Proof.
  induction fuel as [|fuel IH]; intros s fin written Hn Hready.
  - exists s, []. rewrite app_nil_r. now split.
  - cbn [main_loop]. unfold fread. rewrite Hn. change (Z.to_nat 0) with 0%nat.
    rewrite take_0, drop_0.
    set (s1 := set_speech_in s (store (speech_in s) [])).
    change (n_speech_samples s1) with (n_speech_samples s). rewrite Hn.
    cbn [length Z.of_nat Z.eqb].
    destruct (tx_block_total s1) as (d & s2 & Htx & Hn2 & _ & _ & Hr2);
      [exact Hready|].
    rewrite Htx.
    destruct (IH s2 fin (written ++ [take (Z.to_nat (n_nom_modem_samples s2))
                                          (mod_out s2)]))
      as (s' & w & Hrun & Hw); [now rewrite Hn2 | exact Hr2 |].
    exists s', (take (Z.to_nat (n_nom_modem_samples s2)) (mod_out s2) :: w).
    rewrite Hrun, <- app_assoc. split; [reflexivity | simpl; lia].
Qed.

End LoopMore.

Lemma main_loop_streams_witness :
  0 < Driver.n_speech_samples (demo_session 2)
  /\ Z.of_nat (length [100; 200; 300; 400])
     = Z.of_nat 2 * Driver.n_speech_samples (demo_session 2)
  /\ Driver.codectx_ready (demo_session 2)
  /\ exists s' w,
       Driver.main_loop 2 (demo_session 2) [100; 200; 300; 400] []
       = (Driver.OutOfFuel, s', w)
       /\ Driver.main_loop 3 (demo_session 2)
            ([100; 200; 300; 400] ++ [5000; 6000; 7]) []
          = Driver.main_loop 1 s' [5000; 6000; 7] w.
Proof.
  split; [reflexivity|]. split; [reflexivity|]. split; [left; reflexivity|].
  destruct (main_loop_streams 2 (demo_session 2) [100; 200; 300; 400]
              [5000; 6000; 7] [] eq_refl eq_refl (or_introl eq_refl))
    as (s' & w & Hrun & _ & Hgo).
  exists s', w. split; [exact Hrun | exact (Hgo 1%nat)].
Defined.

Lemma main_loop_zero_block_witness :
  Driver.n_speech_samples (demo_session 0) = 0
  /\ Driver.codectx_ready (demo_session 0)
  /\ exists s' w,
       Driver.main_loop 5 (demo_session 0) [] [] = (Driver.OutOfFuel, s', w)
       /\ length w = 5%nat.
Proof.
  split; [reflexivity|]. split; [left; reflexivity|].
  exact (main_loop_zero_block 5 (demo_session 0) [] [] eq_refl
           (or_introl eq_refl)).
Defined.

(** ** Exit statuses *)

Section ExitStatus.

Import Driver.

Context {api : Api}.

(** Start-up is never cut short by an [exit]: only by a failed [assert] or
    a trap. *)
Lemma parse_arg_stop env mode argv i o t :
  parse_arg env mode argv i o = inr t -> forall st, t <> Exited st.
Proof.
  unfold parse_arg. cbv zeta.
  destruct (String.eqb _ "--codectx");
    [destruct (codec2_create _)|];
    destruct (String.eqb _ "--callsign"), (String.eqb _ "--ssid"),
             (String.eqb _ "--mac-multicast"), (String.eqb _ "--data-threshold");
    destruct (argv !! S i); cbn; intros Hparse; try discriminate;
    injection Hparse as <-; discriminate.
Qed.

Lemma parse_args_stop env mode argv n :
  forall i o t,
  parse_args env mode argv n i o = inr t -> forall st, t <> Exited st.
Proof.
  induction n as [|n IH]; intros i o t Hparse; [discriminate|].
  cbn [parse_args] in Hparse.
  destruct (parse_arg env mode argv i o) as [o1|t1] eqn:Harg; cbn [bind] in Hparse.
  - exact (IH _ _ _ Hparse).
  - injection Hparse as <-. exact (parse_arg_stop _ _ _ _ _ _ Harg).
Qed.

Lemma open_session_stop env mode o t :
  open_session env mode o = inr t -> forall st, t <> Exited st.
Proof.
  unfold open_session, generate_address.
  destruct (freedv_open mode); [|intros H; injection H as <-; discriminate].
  destruct (callsign o); cbn [bind].
  - destruct (_ <? 0); [intros H; injection H as <-; discriminate|].
    destruct (_ <? 0); intros H; [injection H as <-|]; discriminate.
  - destruct ((15 <? ssid o) || (ssid o <? 0)); cbn [bind].
    + destruct (_ <? 0); [intros H; injection H as <-; discriminate|].
      destruct (_ <? 0); intros H; [injection H as <-|]; discriminate.
    + intros H; injection H as <-. discriminate.
Qed.

(** X14: what the exit status says.  [main] ends with status 1 exactly when
    there are fewer than four arguments, or the mode is accepted and the
    input file cannot be opened, or mode and input are fine and the output
    file cannot be opened; in each of these cases nothing has been written
    to the output and a message has been printed.  No run ends with a status
    other than 0 or 1. *)
Theorem main_exit_status (fuel : nat) (env : Env) (argv : list string) :
  let arg i := default ""%string (argv !! i) in
  let r := main fuel env argv in
  (term r = Exited 1 <->
     (length argv < 4)%nat
     \/ ((4 <= length argv)%nat /\ parse_mode (arg 1%nat) <> -1
         /\ ((arg 2%nat <> "-"%string /\ exists e, fopen_rb env (arg 2%nat) = inl e)
             \/ ((arg 2%nat = "-"%string
                  \/ exists fin, fopen_rb env (arg 2%nat) = inr fin)
                 /\ arg 3%nat <> "-"%string
                 /\ exists e, fopen_wb env (arg 3%nat) = Some e))))
  /\ (term r = Exited 1 -> modem r = [] /\ (out r <> [] \/ err r <> []))
  /\ (forall st, term r = Exited st -> st = 0 \/ st = 1).
Proof.
  cbv zeta. unfold main, start. cbv zeta.
  destruct (Nat.ltb_spec (length argv) 4) as [Hargc|Hargc].
  { cbn. split; [split; [now left | reflexivity]|].
    split; [intros _; split; [reflexivity | left; discriminate]|].
    intros st Hst. injection Hst as <-. now right. }
  destruct (Z.eqb_spec (parse_mode (default ""%string (argv !! 1%nat))) (-1))
    as [Hmode|Hmode].
  { cbn. split; [split; [discriminate | intros [H|(_ & H & _)]; [lia|contradiction]]|].
    split; [discriminate|]. intros st Hst. injection Hst as <-. now left. }
  destruct (String.eqb_spec (default ""%string (argv !! 2%nat)) "-") as [Hin|Hin];
    [|destruct (fopen_rb env _) as [e|fin] eqn:Hrb].
  2:{ cbn. split.
      { split; [intros _; right; repeat split; try assumption; left; split;
                  [assumption | now exists e] | reflexivity]. }
      split; [intros _; split; [reflexivity | right; discriminate]|].
      intros st Hst. injection Hst as <-. now right. }
  all: destruct (String.eqb_spec (default ""%string (argv !! 3%nat)) "-")
         as [Hout|Hout];
       [|destruct (fopen_wb env _) as [e'|] eqn:Hwb].
  all: try (cbn; split;
            [split; [intros _; right; split; [assumption|]; split; [assumption|];
                     right; split; [first [now left | right; now exists fin]|];
                     split; [assumption | now exists e']
                    | reflexivity]
            | split; [intros _; split; [reflexivity | right; discriminate]|];
              intros st Hst; injection Hst as <-; now right]).
  all: match goal with
       | |- context [bind ?m ?k] =>
           destruct (bind m k) as [s|t] eqn:Hstart
       end.
  all: try (destruct (main_loop fuel s _ []) as [[e0 s0] written];
            cbn [term err out modem];
            split; [split; [destruct e0; discriminate|]
                   | split; [destruct e0; discriminate|];
                     intros st Hst; destruct e0; try discriminate;
                     injection Hst as <-; now left]).
  all: try (assert (forall st, t <> Exited st) as Ht
              by (destruct (parse_args env _ argv _ 4 default_options) as [o|t0]
                    eqn:Hparse; cbn [bind] in Hstart;
                  [exact (open_session_stop _ _ _ _ Hstart)
                  | injection Hstart as <-; exact (parse_args_stop _ _ _ _ _ _ _ Hparse)]);
            cbn [stopped term err out modem];
            split; [split; [intros Hst; now apply Ht in Hst|]
                   | split; [intros Hst; now apply Ht in Hst|];
                     intros st Hst; now apply Ht in Hst]).
  all: intros [H|(_ & _ & [(H1 & e1 & H2)|(_ & H1 & e1 & H2)])];
       try lia; try contradiction; try congruence.
Qed.

End ExitStatus.
